(** * Contact directory (goit-pycore-hw-08.py): a shallow embedding

    The Python program keeps an address book of contact records (name,
    phones, optional birthday) and answers which birthdays fall in the
    coming days.  This file embeds the classes [Field], [Name], [Phone],
    [Birthday], [Record], [AddressBook], the decorator [input_error] and
    the command [add_contact], together with the parts of the Python
    library they call ([re.match], [datetime.strptime], [date] arithmetic,
    [strftime]), and states the properties of the specification over them.

    Conventions.
    - A Python [str] is a list of Unicode code points.
    - An exception is a value of [exn]; a Python call that may raise
      returns a [result].  Methods that mutate an object are functions in
      the state-and-exception monad [M]: the state reached before a raise
      is kept, as in Python.
    - [Record] objects live in a heap and the address book stores
      references to them, so that mutating a record found in the book is
      seen through the book. *)

From Stdlib Require Import ZArith NArith String Ascii List Lia Bool.
From stdpp Require Import base decidable option list numbers.
Import ListNotations.

Local Open Scope Z_scope.

(** ** Python strings *)

Definition str := list N.

(** An ASCII literal as a [str]. *)
Definition lit (s : string) : str :=
  map N_of_ascii (list_ascii_of_string s).

Definition NL : N := 10%N.     (* "\n" *)
Definition SPACE : N := 32%N.  (* " " *)
Definition DOT : N := 46%N.    (* "." *)
Definition ZERO : N := 48%N.   (* "0" *)

Definition str_eqb (a b : str) : bool := bool_decide (a = b).

(** [str(n)] for a non-negative integer: decimal digits, most significant
    first. *)
Fixpoint dec_digits (fuel : nat) (n : Z) (acc : str) : str :=
  match fuel with
  | O => acc
  | S fuel' =>
      let acc' := (ZERO + Z.to_N (n mod 10))%N :: acc in
      if n / 10 =? 0 then acc' else dec_digits fuel' (n / 10) acc'
  end.

Definition str_of_int (n : Z) : str := dec_digits (S (Z.to_nat (Z.log2 n))) n [].

(** [%02d]-style padding, as [strftime] does for [%m] and [%d]. *)
Definition zero_pad (width : nat) (s : str) : str :=
  replicate (width - length s)%nat ZERO ++ s.

(** ** Exceptions and results *)

Inductive exn :=
| ValueError (msg : str)
| KeyError (msg : str)
| IndexError (msg : str)
| AttributeError (msg : str)
| OverflowError (msg : str).

Definition exn_msg (e : exn) : str :=
  match e with
  | ValueError m | KeyError m | IndexError m | AttributeError m
  | OverflowError m => m
  end.

Inductive result (A : Type) :=
| Ok (a : A)
| Raise (e : exn).
Arguments Ok {A} a.
Arguments Raise {A} e.

Definition rbind {A B} (r : result A) (k : A -> result B) : result B :=
  match r with
  | Ok a => k a
  | Raise e => Raise e
  end.

(** State and exceptions: a raise keeps the state reached so far. *)
Definition M (S A : Type) : Type := S -> S * result A.

Definition ret {S A} (a : A) : M S A := fun s => (s, Ok a).
Definition raise {S A} (e : exn) : M S A := fun s => (s, Raise e).
Definition bind {S A B} (m : M S A) (k : A -> M S B) : M S B :=
  fun s => match m s with
           | (s', Ok a) => k a s'
           | (s', Raise e) => (s', Raise e)
           end.
Definition get {S} : M S S := fun s => (s, Ok s).
Definition put {S} (s' : S) : M S unit := fun _ => (s', Ok tt).
Definition lift {S A} (r : result A) : M S A := fun s => (s, r).

Declare Scope py_scope.
Delimit Scope py_scope with py.
Notation "x <- m ;; k" := (bind m (fun x => k))
  (at level 100, m at next level, right associativity) : py_scope.
Notation "m ;;; k" := (bind m (fun _ => k))
  (at level 100, right associativity) : py_scope.
Notation "x <-r m ;; k" := (rbind m (fun x => k))
  (at level 100, m at next level, right associativity) : py_scope.

(** ** The [re] module, as far as the program uses it *)

(** [\d] in a [str] pattern matches every character of Unicode category
    Nd.  The decimal digits come in runs of ten, zero first; the table
    lists the first code point of each run (Unicode 14.0, as shipped with
    CPython 3.11). *)
Definition Nd_runs : list N :=
  [ 0x30; 0x660; 0x6F0; 0x7C0; 0x966; 0x9E6; 0xA66; 0xAE6; 0xB66; 0xBE6;
    0xC66; 0xCE6; 0xD66; 0xDE6; 0xE50; 0xED0; 0xF20; 0x1040; 0x1090;
    0x17E0; 0x1810; 0x1946; 0x19D0; 0x1A80; 0x1A90; 0x1B50; 0x1BB0;
    0x1C40; 0x1C50; 0xA620; 0xA8D0; 0xA900; 0xA9D0; 0xA9F0; 0xAA50;
    0xABF0; 0xFF10; 0x104A0; 0x10D30; 0x11066; 0x110F0; 0x11136; 0x111D0;
    0x112F0; 0x11450; 0x114D0; 0x11650; 0x116C0; 0x11730; 0x118E0;
    0x11950; 0x11C50; 0x11D50; 0x11DA0; 0x16A60; 0x16AC0; 0x16B50;
    0x1D7CE; 0x1D7D8; 0x1D7E2; 0x1D7EC; 0x1D7F6; 0x1E140; 0x1E2F0;
    0x1E950; 0x1FBF0 ]%N.

Definition in_run (c start : N) : bool := ((start <=? c) && (c <? start + 10))%N.

(** The value of a decimal digit character, [None] for other characters. *)
Definition digit_value (c : N) : option Z :=
  match find (in_run c) Nd_runs with
  | Some start => Some (Z.of_N (c - start))
  | None => None
  end.

Definition re_digit (c : N) : bool := existsb (in_run c) Nd_runs.

Definition ascii_digit (c : N) : bool := ((48 <=? c) && (c <=? 57))%N.

(** A pattern maps the text at the current position to every way it can
    match, in the order the backtracking matcher tries them: the matched
    text and the text that follows. *)
Definition pattern := str -> list (str * str).

Definition re_class (ok : N -> bool) : pattern :=
  fun s => match s with
           | c :: s' => if ok c then [([c], s')] else []
           | [] => []
           end.
Definition re_range (lo hi : N) : pattern :=
  re_class (fun c => (lo <=? c) && (c <=? hi))%N.
Definition re_chr (c : N) : pattern := re_class (N.eqb c).
Definition re_d : pattern := re_class re_digit.
Definition re_seq (p q : pattern) : pattern :=
  fun s => '(a, r) ← p s; '(b, r') ← q r; [(a ++ b, r')].
Definition re_alt (p q : pattern) : pattern := fun s => p s ++ q s.
Fixpoint re_rep (n : nat) (p : pattern) : pattern :=
  match n with
  | O => fun s => [([], s)]
  | S n' => re_seq p (re_rep n' p)
  end.

(** [$] without [re.MULTILINE]: the end of the string, or the position
    just before a newline that ends the string. *)
Definition re_end : pattern :=
  fun s => match s with
           | [] => [([], s)]
           | [c] => if (c =? NL)%N then [([], s)] else []
           | _ => []
           end.

(** [re.match(p, s)]: the first match at the start of [s], if any.  ([^]
    at the head of a pattern given to [re.match] adds nothing.) *)
Definition re_match (p : pattern) (s : str) : option (str * str) := head (p s).

(** [r'^\d{10}$'] *)
Definition phone_pattern : pattern := re_seq (re_rep 10 re_d) re_end.

(** [int(s)] on the tokens the patterns below produce: decimal digits,
    after optional leading blanks. *)
Definition int_digits (s : str) : Z :=
  fold_left (fun acc c => acc * 10 + default 0 (digit_value c)) s 0.
Fixpoint py_int (s : str) : Z :=
  match s with
  | c :: s' => if (c =? SPACE)%N then py_int s' else int_digits s
  | [] => 0
  end.

(** ** Fields *)

Module Field.
Record t := { value : str }.
Definition init (value : str) : t := {| value := value |}.
End Field.

#[global] Instance Field_eq_dec : EqDecision Field.t.
Proof. solve_decision. Defined.

Module Name.
Definition t := Field.t.
Definition init (value : str) : result t :=
  match value with
  | [] => Raise (ValueError (lit "Please enter the name."))
  | _ => Ok (Field.init value)
  end.
End Name.

Module Phone.
Definition t := Field.t.
Definition init (value : str) : result t :=
  if negb (bool_decide (is_Some (re_match phone_pattern value)))
  then Raise (ValueError (lit "Phone number must be exactly 10 digits."))
  else Ok (Field.init value).
End Phone.

(** ** The [datetime] module, as far as the program uses it

    The definitions follow CPython's [datetime] (proleptic Gregorian
    calendar, years 1..9999); integer division and remainder are Python's
    floor versions, which [Z.div] and [Z.modulo] are for a positive
    divisor. *)

Module datetime.

Definition MINYEAR : Z := 1.
Definition MAXYEAR : Z := 9999.
Definition _MAXORDINAL : Z := 3652059.

Definition _DAYS_IN_MONTH : list Z :=
  [-1; 31; 28; 31; 30; 31; 30; 31; 31; 30; 31; 30; 31].
Definition _DAYS_BEFORE_MONTH : list Z :=
  [-1; 0; 31; 59; 90; 120; 151; 181; 212; 243; 273; 304; 334].

Definition index (l : list Z) (i : Z) : Z := nth (Z.to_nat i) l 0.

Definition _is_leap (year : Z) : bool :=
  (year mod 4 =? 0) && (negb (year mod 100 =? 0) || (year mod 400 =? 0)).

Definition _days_before_year (year : Z) : Z :=
  let y := year - 1 in
  y * 365 + y / 4 - y / 100 + y / 400.

Definition _days_in_month (year month : Z) : Z :=
  if (month =? 2) && _is_leap year then 29 else index _DAYS_IN_MONTH month.

Definition _days_before_month (year month : Z) : Z :=
  index _DAYS_BEFORE_MONTH month
  + Z.b2z ((2 <? month) && _is_leap year).

Definition _ymd2ord (year month day : Z) : Z :=
  _days_before_year year + _days_before_month year month + day.

Definition _DI400Y : Z := _days_before_year 401.
Definition _DI100Y : Z := _days_before_year 101.
Definition _DI4Y : Z := _days_before_year 5.

Definition _ord2ymd (n : Z) : Z * Z * Z :=
  let n := n - 1 in
  let n400 := n / _DI400Y in
  let n := n mod _DI400Y in
  let year := n400 * 400 + 1 in
  let n100 := n / _DI100Y in
  let n := n mod _DI100Y in
  let n4 := n / _DI4Y in
  let n := n mod _DI4Y in
  let n1 := n / 365 in
  let n := n mod 365 in
  let year := year + n100 * 100 + n4 * 4 + n1 in
  if (n1 =? 4) || (n100 =? 4) then (year - 1, 12, 31)
  else
    let leapyear := (n1 =? 3) && (negb (n4 =? 24) || (n100 =? 3)) in
    let month := Z.shiftr (n + 50) 5 in
    let preceding :=
      index _DAYS_BEFORE_MONTH month + Z.b2z ((2 <? month) && leapyear) in
    let '(month, preceding) :=
      if n <? preceding
      then (month - 1,
            preceding - (index _DAYS_IN_MONTH (month - 1)
                         + Z.b2z ((month - 1 =? 2) && leapyear)))
      else (month, preceding) in
    (year, month, n - preceding + 1).

(** A [date] object. *)
Record date := { year : Z; month : Z; day : Z }.

(** [date(year, month, day)], with the range checks of the constructor. *)
Definition date_new (y m d : Z) : result date :=
  if negb ((MINYEAR <=? y) && (y <=? MAXYEAR))
  then Raise (ValueError (lit "year " ++ (if y <? 0 then lit "-" else [])
                          ++ str_of_int (Z.abs y) ++ lit " is out of range"))
  else if negb ((1 <=? m) && (m <=? 12))
  then Raise (ValueError (lit "month must be in 1..12"))
  else if negb ((1 <=? d) && (d <=? _days_in_month y m))
  then Raise (ValueError (lit "day is out of range for month"))
  else Ok {| year := y; month := m; day := d |}.

(** [self.replace(year=y)] *)
Definition replace_year (self : date) (y : Z) : result date :=
  date_new y (month self) (day self).

Definition toordinal (self : date) : Z :=
  _ymd2ord (year self) (month self) (day self).

Definition fromordinal (n : Z) : date :=
  let '(y, m, d) := _ord2ymd n in {| year := y; month := m; day := d |}.

(** [self < other]: the fields compared as a tuple. *)
Definition lt (self other : date) : bool :=
  (year self <? year other)
  || ((year self =? year other)
      && ((month self <? month other)
          || ((month self =? month other) && (day self <? day other)))).

(** [(self - other).days] *)
Definition sub_days (self other : date) : Z :=
  toordinal self - toordinal other.

(** [self + timedelta(days=k)] *)
Definition add_days (self : date) (k : Z) : result date :=
  let o := toordinal self + k in
  if (0 <? o) && (o <=? _MAXORDINAL) then Ok (fromordinal o)
  else Raise (OverflowError (lit "date value out of range")).

(** [self.weekday()]: Monday is 0, Sunday is 6. *)
Definition weekday (self : date) : Z := (toordinal self + 6) mod 7.

(** [self.strftime("%Y-%m-%d")] with the C library's [%Y] (the year in
    decimal, four digits for the years 1000..9999). *)
Definition strftime_Ymd (self : date) : str :=
  str_of_int (year self) ++ lit "-"
  ++ zero_pad 2 (str_of_int (month self)) ++ lit "-"
  ++ zero_pad 2 (str_of_int (day self)).

(** The groups of [_strptime]'s regular expression for the directives
    [%d], [%m] and [%Y]. *)
Definition group_d : pattern :=
  re_alt (re_seq (re_chr 51) (re_range 48 49))        (* 3[0-1] *)
 (re_alt (re_seq (re_range 49 50) re_d)               (* [1-2]\d *)
 (re_alt (re_seq (re_chr 48) (re_range 49 57))        (* 0[1-9] *)
 (re_alt (re_range 49 57)                             (* [1-9] *)
         (re_seq (re_chr SPACE) (re_range 49 57))))). (* " [1-9]" *)
Definition group_m : pattern :=
  re_alt (re_seq (re_chr 49) (re_range 48 50))        (* 1[0-2] *)
 (re_alt (re_seq (re_chr 48) (re_range 49 57))        (* 0[1-9] *)
         (re_range 49 57)).                           (* [1-9] *)
Definition group_Y : pattern := re_rep 4 re_d.        (* \d\d\d\d *)

(** The first match of the pattern of ["%d.%m.%Y"]: the three groups and
    the text left unconverted. *)
Definition match_dmY (s : str) : option (str * str * str * str) :=
  head ('(d, r1) ← group_d s;
        '(_, r2) ← re_chr DOT r1;
        '(m, r3) ← group_m r2;
        '(_, r4) ← re_chr DOT r3;
        '(y, r5) ← group_Y r4;
        [(d, m, y, r5)]).

(** [datetime.strptime(s, "%d.%m.%Y").date()].  The texts of the two
    format errors are shortened: Python's also quote the data. *)
Definition strptime_dmY (s : str) : result date :=
  match match_dmY s with
  | None => Raise (ValueError (lit "time data does not match format"))
  | Some (d, m, y, rest) =>
      match rest with
      | _ :: _ => Raise (ValueError (lit "unconverted data remains"))
      | [] => date_new (py_int y) (py_int m) (py_int d)
      end
  end.

End datetime.

Module Birthday.
Definition t := Field.t.
Definition init (value : str) : result t :=
  match datetime.strptime_dmY value with
  | Raise (ValueError _) =>
      Raise (ValueError (lit "birthday format must be DD.MM.YYYY"))
  | Raise e => Raise e
  | Ok _ => Ok (Field.init value)
  end.
End Birthday.

(** ** Records *)

(** [str] and the other containers are false when empty. *)
Definition truthy (s : str) : bool :=
  match s with
  | [] => false
  | _ => true
  end.

(** [l.remove(x)]: drops the first item equal to [x]; [None] stands for the
    [ValueError] of a list without such an item.  [Field] defines no
    [__eq__], so Python compares the objects by identity; the object
    handed to [remove] below is the first one of the list with its value,
    so that dropping the first item of equal value drops the same item. *)
Fixpoint list_remove (x : Field.t) (l : list Field.t) : option (list Field.t) :=
  match l with
  | [] => None
  | y :: l' =>
      if bool_decide (y = x) then Some l'
      else match list_remove x l' with
           | Some r => Some (y :: r)
           | None => None
           end
  end.

Module Record_.

Record t := {
  name : Name.t;
  phones : list Phone.t;
  birthday : option Birthday.t
}.

Definition set_phones (ps : list Phone.t) (self : t) : t :=
  {| name := name self; phones := ps; birthday := birthday self |}.
Definition set_birthday (b : option Birthday.t) (self : t) : t :=
  {| name := name self; phones := phones self; birthday := b |}.

(** [Record(name, birthday)]; [birthday = None] is Python's default. *)
Definition init (name_ : str) (birthday_ : option str) : result t :=
  (n <-r Name.init name_;;
   b <-r match birthday_ with
         | Some v => if truthy v
                     then (x <-r Birthday.init v;; Ok (Some x))
                     else Ok None
         | None => Ok None
         end;;
   Ok {| name := n; phones := []; birthday := b |})%py.

Definition add_phone (phone : str) : M t unit :=
  (p <- lift (Phone.init phone);;
   self <- get;;
   put (set_phones (phones self ++ [p]) self))%py.

Definition find_phone (phone : str) : M t (option Phone.t) :=
  (self <- get;;
   ret (find (fun p => str_eqb (Field.value p) phone) (phones self)))%py.

Definition remove_phone (phone : str) : M t bool :=
  (phone_obj <- find_phone phone;;
   match phone_obj with
   | Some o =>
       self <- get;;
       match list_remove o (phones self) with
       | Some ps => put (set_phones ps self);;; ret true
       | None => raise (ValueError (lit "list.remove(x): x not in list"))
       end
   | None => ret false
   end)%py.

Definition edit_phone (old_phone new_phone : str) : M t unit :=
  (old_phone_obj <- find_phone old_phone;;
   match old_phone_obj with
   | None =>
       raise (ValueError (lit "Phone number " ++ old_phone ++ lit " not found."))
   | Some _ =>
       add_phone new_phone;;;
       _ <- remove_phone old_phone;;
       ret tt
   end)%py.

Definition add_birthday (birthday_ : str) : M t unit :=
  (b <- lift (Birthday.init birthday_);;
   self <- get;;
   put (set_birthday (Some b) self))%py.

End Record_.

(** ** Dictionaries

    A Python [dict] keeps its keys in insertion order; assigning to a key
    already present replaces the value where it stands. *)

Definition dict (V : Type) := list (str * V).

Fixpoint dict_get {V} (d : dict V) (k : str) : option V :=
  match d with
  | [] => None
  | (k', v) :: d' => if str_eqb k' k then Some v else dict_get d' k
  end.

Fixpoint dict_set {V} (d : dict V) (k : str) (v : V) : dict V :=
  match d with
  | [] => [(k, v)]
  | (k', v') :: d' =>
      if str_eqb k' k then (k', v) :: d' else (k', v') :: dict_set d' k v
  end.

Fixpoint dict_del {V} (d : dict V) (k : str) : dict V :=
  match d with
  | [] => []
  | (k', v) :: d' => if str_eqb k' k then d' else (k', v) :: dict_del d' k
  end.

Definition dict_contains {V} (d : dict V) (k : str) : bool :=
  bool_decide (is_Some (dict_get d k)).

Definition dict_values {V} (d : dict V) : list V := map snd d.

(** ** The world: record objects, the address book, the clock *)

(** A reference to a [Record] object is its index in the heap. *)
Definition ref := nat.

Record World := {
  heap : list Record_.t;      (* the Record objects created so far *)
  data : dict ref;            (* [book.data] of the one address book *)
  clock : datetime.date       (* what [date.today()] answers *)
}.

Definition set_heap (h : list Record_.t) (w : World) : World :=
  {| heap := h; data := data w; clock := clock w |}.
Definition set_data (d : dict ref) (w : World) : World :=
  {| heap := heap w; data := d; clock := clock w |}.

(** Python has no dangling reference.  To keep the functions total the
    model answers a reference outside the heap with this exception, which
    no well-formed world ever raises. *)
Definition dangling : exn := AttributeError (lit "dangling reference").

(** Creating an object. *)
Definition new (r : Record_.t) : M World ref :=
  fun w => (set_heap (heap w ++ [r]) w, Ok (length (heap w))).

(** Reading an object. *)
Definition deref (r : ref) : M World Record_.t :=
  fun w => match heap w !! r with
           | Some o => (w, Ok o)
           | None => (w, Raise dangling)
           end.

(** Calling a method on the object behind a reference: the object is
    updated in place, also when the method raises. *)
Definition on {A} (r : ref) (m : M Record_.t A) : M World A :=
  fun w => match heap w !! r with
           | Some o => let '(o', a) := m o in (set_heap (<[r := o']> (heap w)) w, a)
           | None => (w, Raise dangling)
           end.

(** [date.today()] *)
Definition date_today : M World datetime.date := fun w => (w, Ok (clock w)).

(** An item of the list [get_upcoming_birthdays] returns: the [dict] with
    the keys ["name"] and ["birthday"]. *)
Record entry := { entry_name : str; entry_birthday : str }.

Module AddressBook.

Definition add_record (record : ref) : M World unit :=
  (r <- deref record;;
   w <- get;;
   put (set_data (dict_set (data w) (Field.value (Record_.name r)) record) w))%py.

Definition delete (name : str) : M World bool :=
  (w <- get;;
   if dict_contains (data w) name
   then put (set_data (dict_del (data w) name) w);;; ret true
   else ret false)%py.

Definition find (name : str) : M World (option ref) :=
  (w <- get;; ret (dict_get (data w) name))%py.

Definition _find_next_weekday (start_date : datetime.date) : result datetime.date :=
  let days_ahead :=
    if datetime.weekday start_date =? 5 then 2
    else if datetime.weekday start_date =? 6 then 1
    else 0 in
  datetime.add_days start_date days_ahead.

Definition _adjust_for_weekend (birthday : datetime.date) : result datetime.date :=
  if 5 <=? datetime.weekday birthday
  then _find_next_weekday birthday
  else Ok birthday.

(** The date the loop tests: the birthday in this year, or in the next
    year when this year's is over. *)
Definition birthday_this_year (birth_day today : datetime.date)
  : result datetime.date :=
  (this_year <-r datetime.replace_year birth_day (datetime.year today);;
   if datetime.lt this_year today
   then datetime.replace_year birth_day (datetime.year today + 1)
   else Ok this_year)%py.

(** One turn of the loop over [self.data.values()]: the items the record
    adds to [upcoming_birthdays]. *)
Definition upcoming_of (today : datetime.date) (days : Z) (record : Record_.t)
  : result (list entry) :=
  match Record_.birthday record with
  | None => Ok []
  | Some b =>
      (birth_day <-r datetime.strptime_dmY (Field.value b);;
       candidate <-r birthday_this_year birth_day today;;
       let delta := datetime.sub_days candidate today in
       if (0 <=? delta) && (delta <=? days)
       then
         adjusted <-r _adjust_for_weekend candidate;;
         Ok [ {| entry_name := Field.value (Record_.name record);
                 entry_birthday := datetime.strftime_Ymd adjusted |} ]
       else Ok [])%py
  end.

Fixpoint upcoming_loop (today : datetime.date) (days : Z) (records : list ref)
  (upcoming_birthdays : list entry) : M World (list entry) :=
  match records with
  | [] => ret upcoming_birthdays
  | r :: rest =>
      (record <- deref r;;
       items <- lift (upcoming_of today days record);;
       upcoming_loop today days rest (upcoming_birthdays ++ items))%py
  end.

(** [days=7] is the default of the source. *)
Definition get_upcoming_birthdays (days : Z) : M World (list entry) :=
  (today <- date_today;;
   w <- get;;
   upcoming_loop today days (dict_values (data w)) [])%py.

End AddressBook.

(** ** Commands *)

Definition input_error {A} (func : A -> M World str) : A -> M World str :=
  fun args w =>
    match func args w with
    | (w', Ok s) => (w', Ok s)
    | (w', Raise (ValueError _)) => (w', Ok (lit "Give me name and phone please."))
    | (w', Raise (KeyError _)) => (w', Ok (lit "Contact doesn't exist."))
    | (w', Raise (IndexError _)) => (w', Ok (lit "Enter the argument for the command"))
    | (w', Raise (AttributeError _)) => (w', Ok (lit "Invalid contact."))
    | (w', Raise e) => (w', Ok (lit "An unexpected error: " ++ exn_msg e))
    end.

(** The function [add_contact] before it is decorated. *)
Definition add_contact_func (args : list str) : M World str :=
  match args with
  | name :: phone :: _ =>
      (found <- AddressBook.find name;;
       rm <-
          match found with
          | None =>
              r <- lift (Record_.init name None);;
              record <- new r;;
              AddressBook.add_record record;;;
              ret (record, lit "Contact added.")
          | Some record => ret (record, lit "Contact updated.")
          end;;
       let '(record, message) := rm in
       (if truthy phone then on record (Record_.add_phone phone) else ret tt);;;
       ret message)%py
  | _ =>
      raise (ValueError (lit "not enough values to unpack (expected at least 2, got "
                         ++ str_of_int (Z.of_nat (length args)) ++ lit ")"))
  end.

Definition add_contact : list str -> M World str := input_error add_contact_func.


(** ** Vocabulary of the specification *)

(** "Exactly 10 ASCII digit characters". *)
Definition ten_ascii_digits (s : str) : bool :=
  (length s =? 10)%nat && forallb ascii_digit s.

(** How many stored phones carry the value [v]. *)
Fixpoint count_phone (v : str) (l : list Phone.t) : nat :=
  match l with
  | [] => O
  | p :: l' => ((if str_eqb (Field.value p) v then 1 else 0) + count_phone v l')%nat
  end.

(** The phone list without its first phone of value [v]. *)
Fixpoint remove_first (v : str) (l : list Phone.t) : list Phone.t :=
  match l with
  | [] => []
  | p :: l' => if str_eqb (Field.value p) v then l' else p :: remove_first v l'
  end.

(** The record stored under a key, read through the reference. *)
Definition lookup (w : World) (k : str) : option Record_.t :=
  match dict_get (data w) k with
  | Some r => heap w !! r
  | None => None
  end.

(** The directory as its user sees it: the keys in order, each with the
    record behind its reference. *)
Definition directory (w : World) : list (str * option Record_.t) :=
  map (fun kr => (fst kr, heap w !! snd kr)) (data w).

(** "Every record's stored name equals its key." *)
Definition names_match_keys (w : World) : Prop :=
  forall k r, In (k, r) (data w) ->
    exists o, heap w !! r = Some o /\ Field.value (Record_.name o) = k.

(** The keys of a dictionary are distinct. *)
Definition keys_distinct (w : World) : Prop := List.NoDup (map fst (data w)).

(** The operations of a session on the directory and its records. *)
Inductive operation :=
| OpNew (name : str) (birthday : option str)       (* Record(name, birthday) *)
| OpAddRecord (record : ref)                       (* book.add_record(record) *)
| OpDelete (name : str)                            (* book.delete(name) *)
| OpFind (name : str)                              (* book.find(name) *)
| OpAddPhone (record : ref) (phone : str)          (* record.add_phone(phone) *)
| OpRemovePhone (record : ref) (phone : str)       (* record.remove_phone(phone) *)
| OpEditPhone (record : ref) (old new : str)       (* record.edit_phone(old, new) *)
| OpAddBirthday (record : ref) (birthday : str)    (* record.add_birthday(birthday) *)
| OpAddContact (args : list str).                  (* add_contact(args, book) *)

(** One operation; its result or exception is dropped, the session goes
    on from the state it leaves. *)
Definition step (op : operation) (w : World) : World :=
  match op with
  | OpNew n b => fst ((r <- lift (Record_.init n b);; new r)%py w)
  | OpAddRecord r => fst (AddressBook.add_record r w)
  | OpDelete n => fst (AddressBook.delete n w)
  | OpFind n => fst (AddressBook.find n w)
  | OpAddPhone r p => fst (on r (Record_.add_phone p) w)
  | OpRemovePhone r p => fst (on r (Record_.remove_phone p) w)
  | OpEditPhone r o n => fst (on r (Record_.edit_phone o n) w)
  | OpAddBirthday r b => fst (on r (Record_.add_birthday b) w)
  | OpAddContact args => fst (add_contact args w)
  end.

Definition run (ops : list operation) (w : World) : World :=
  fold_left (fun w op => step op w) ops w.

(** A world before anything is stored in the book. *)
Definition empty_book (h : list Record_.t) (today : datetime.date) : World :=
  {| heap := h; data := []; clock := today |}.

(** The test of the loop on the candidate date. *)
Definition in_window (candidate today : datetime.date) (days : Z) : bool :=
  (0 <=? datetime.sub_days candidate today)
  && (datetime.sub_days candidate today <=? days).

(** "If candidate falls on Saturday, shift forward 2 days; if Sunday, shift
    forward 1 day; otherwise unchanged", in day numbers. *)
Definition weekend_shift (candidate : datetime.date) : datetime.date :=
  if datetime.weekday candidate =? 5
  then datetime.fromordinal (datetime.toordinal candidate + 2)
  else if datetime.weekday candidate =? 6
  then datetime.fromordinal (datetime.toordinal candidate + 1)
  else candidate.

Definition mkdate (y m d : Z) : datetime.date :=
  {| datetime.year := y; datetime.month := m; datetime.day := d |}.

Definition invariant (w : World) : Prop := names_match_keys w /\ keys_distinct w.

(** A computation keeps a property of the world, whether it returns or
    raises. *)
Definition keeps (P : World -> Prop) {A} (m : M World A) : Prop :=
  forall w, P w -> P (fst (m w)).

(** A record whose birthday, if any, has passed [Birthday]'s check. *)
Definition birthday_ok (o : Record_.t) : Prop :=
  forall b, Record_.birthday o = Some b ->
    exists bd, datetime.strptime_dmY (Field.value b) = Ok bd.



(** The record [add_contact] creates for a name, holding [ps]. *)
Definition fresh_record (name : str) (ps : list Phone.t) : Record_.t :=
  {| Record_.name := Field.init name; Record_.phones := ps;
     Record_.birthday := None |}.

Definition with_new_record (w : World) (name : str) (ps : list Phone.t) : World :=
  {| heap := heap w ++ [fresh_record name ps];
     data := data w ++ [(name, length (heap w))];
     clock := clock w |}.


(** ** Sample data *)

Definition bob_two_phones : Record_.t :=
  {| Record_.name := Field.init (lit "Bob");
     Record_.phones := [Field.init (lit "1111111111"); Field.init (lit "1111111111")];
     Record_.birthday := None |}.

Definition bob_one_phone : Record_.t :=
  {| Record_.name := Field.init (lit "Bob");
     Record_.phones := [Field.init (lit "1111111111")];
     Record_.birthday := None |}.


(** A book with one contact, Alice, born on 15.06.1990; today is Monday
    2024-06-10. *)
Definition alice_book : World :=
  run [OpAddContact [lit "Alice"; lit "1234567890"];
       OpAddBirthday 0%nat (lit "15.06.1990")]
      (empty_book [] (mkdate 2024 6 10)).

(** A well-formed [date] object: what the constructor lets through. *)
Definition valid_date (x : datetime.date) : Prop :=
  1 <= datetime.year x <= 9999
  /\ 1 <= datetime.month x <= 12
  /\ 1 <= datetime.day x <= datetime._days_in_month (datetime.year x) (datetime.month x).

(** The answer of the query as a function of the records of the
    directory (in order), the date of today and the horizon. *)
Fixpoint upcoming_from (today : datetime.date) (days : Z)
  (records : list (option Record_.t)) (acc : list entry) : result (list entry) :=
  match records with
  | [] => Ok acc
  | None :: _ => Raise dangling
  | Some o :: rest =>
      match AddressBook.upcoming_of today days o with
      | Ok items => upcoming_from today days rest (acc ++ items)
      | Raise e => Raise e
      end
  end.

(** Every birthday stored in a record has passed [Birthday]'s check. *)
Definition birthdays_valid (w : World) : Prop :=
  forall o, In o (heap w) -> birthday_ok o.

(** What the loop reports for a record whose candidate date is [d]. *)
Definition entry_of (o : Record_.t) (d : datetime.date) : entry :=
  {| entry_name := Field.value (Record_.name o);
     entry_birthday := datetime.strftime_Ymd (weekend_shift d) |}.


(** A book with one contact, Carol, born on 02.01.1985; today is
    2024-12-28. *)
Definition carol_book : World :=
  run [OpAddContact [lit "Carol"; lit "1234567890"];
       OpAddBirthday 0%nat (lit "02.01.1985")]
      (empty_book [] (mkdate 2024 12 28)).

(** A book with one contact, Dan, born on 29.02.2000; today is
    2023-02-20, in a year without a 29th of February. *)
Definition dan_book : World :=
  run [OpAddContact [lit "Dan"; lit "1234567890"];
       OpAddBirthday 0%nat (lit "29.02.2000")]
      (empty_book [] (mkdate 2023 2 20)).

(** ** Further vocabulary *)

(** Ten decimal digits of any script, optionally followed by one
    newline. *)
Definition ten_digits_opt_newline (s : str) : bool :=
  forallb re_digit (take 10 s)
  && ((length s =? 10)%nat
      || ((length s =? 11)%nat && bool_decide (drop 10 s = [NL]))).

(** A date written day.month.year: the year with four digits, the day and
    the month with two digits or, on demand, without the leading zero. *)
Definition written_dmY (pad_day pad_month : bool) (d : datetime.date) : str :=
  (if pad_day then zero_pad 2 (str_of_int (datetime.day d))
   else str_of_int (datetime.day d))
  ++ lit "."
  ++ (if pad_month then zero_pad 2 (str_of_int (datetime.month d))
      else str_of_int (datetime.month d))
  ++ lit "."
  ++ zero_pad 4 (str_of_int (datetime.year d)).

(** ** The other commands *)

(** [sep.join(items)] *)
Fixpoint join (sep : str) (items : list str) : str :=
  match items with
  | [] => []
  | x :: rest =>
      match rest with
      | [] => x
      | _ :: _ => x ++ sep ++ join sep rest
      end
  end.

(** [Record.__str__] *)
Definition Record_str (self : Record_.t) : str :=
  lit "Contact name: " ++ Field.value (Record_.name self) ++ lit ", phones: "
  ++ join (lit "; ") (map Field.value (Record_.phones self)).

(** The objects behind the values of the book, in the order of the book. *)
Fixpoint deref_all (refs : list ref) : M World (list Record_.t) :=
  match refs with
  | [] => ret []
  | r :: rest => (o <- deref r;; os <- deref_all rest;; ret (o :: os))%py
  end.

(** [AddressBook.__str__] *)
Definition AddressBook_str : M World str :=
  (w <- get;;
   records <- deref_all (dict_values (data w));;
   ret (join [NL] (map Record_str records)))%py.

(** What Python raises for [None.attribute]. *)
Definition none_has_no (attribute : string) : exn :=
  AttributeError (lit "'NoneType' object has no attribute '" ++ lit attribute
                  ++ lit "'").

(** What Python raises when a list of [got] items is unpacked into
    [expected] names (the texts of CPython 3.11). *)
Definition unpack_error (expected got : nat) : exn :=
  ValueError
    (if (got <? expected)%nat
     then lit "not enough values to unpack (expected "
          ++ str_of_int (Z.of_nat expected) ++ lit ", got "
          ++ str_of_int (Z.of_nat got) ++ lit ")"
     else lit "too many values to unpack (expected "
          ++ str_of_int (Z.of_nat expected) ++ lit ")").

Definition change_phone_func (args : list str) : M World str :=
  match args with
  | [name; old_phone; new_phone] =>
      (found <- AddressBook.find name;;
       match found with
       | None => raise (none_has_no "edit_phone")
       | Some record => on record (Record_.edit_phone old_phone new_phone)
       end;;;
       ret (lit "Phone number for " ++ name ++ lit " changed from " ++ old_phone
            ++ lit " to " ++ new_phone))%py
  | _ => raise (unpack_error 3 (length args))
  end.

Definition change_phone : list str -> M World str := input_error change_phone_func.

Definition show_phone_func (args : list str) : M World str :=
  match args with
  | [] => raise (IndexError (lit "list index out of range"))
  | name :: _ =>
      (found <- AddressBook.find name;;
       match found with
       | None => raise (none_has_no "phones")
       | Some record =>
           r <- deref record;;
           ret (name ++ lit "'s phones: "
                ++ join (lit ", ") (map Field.value (Record_.phones r)))
       end)%py
  end.

Definition show_phone : list str -> M World str := input_error show_phone_func.

Definition all_contacts_func (args : list str) : M World str :=
  (w <- get;;
   match data w with
   | [] => ret (lit "No contacts available.")
   | _ :: _ =>
       records <- deref_all (dict_values (data w));;
       ret (join [NL] (map Record_str records))
   end)%py.

Definition all_contacts : list str -> M World str := input_error all_contacts_func.

(** A [Record] defines neither [__bool__] nor [__len__]: [not record] is
    true for [None] only. *)
Definition add_birthday_func (args : list str) : M World str :=
  match args with
  | [name; birthday] =>
      (found <- AddressBook.find name;;
       match found with
       | None => ret (lit "Contact doesn't exist.")
       | Some record =>
           on record (Record_.add_birthday birthday);;;
           ret (lit "Birthday " ++ birthday ++ lit " added for " ++ name)
       end)%py
  | _ => raise (unpack_error 2 (length args))
  end.

Definition add_birthday : list str -> M World str := input_error add_birthday_func.

Definition show_birthday_func (args : list str) : M World str :=
  match args with
  | [] => raise (IndexError (lit "list index out of range"))
  | name :: _ =>
      (found <- AddressBook.find name;;
       match found with
       | None => raise (none_has_no "birthday")
       | Some record =>
           r <- deref record;;
           match Record_.birthday r with
           | None => raise (none_has_no "value")
           | Some b => ret (name ++ lit "'s birthday is on " ++ Field.value b)
           end
       end)%py
  end.

Definition show_birthday : list str -> M World str := input_error show_birthday_func.

Definition birthday_line (e : entry) : str :=
  entry_name e ++ lit " has a birthday on " ++ entry_birthday e.

Definition birthdays_func (args : list str) : M World str :=
  (upcoming <- AddressBook.get_upcoming_birthdays 7;;
   match upcoming with
   | [] => ret (lit "No upcoming birthdays in the next week.")
   | _ :: _ => ret (join [NL] (map birthday_line upcoming))
   end)%py.

Definition birthdays : list str -> M World str := input_error birthdays_func.

(** ** The command loop *)

(** [str.isspace] of one character: what [str.strip()] and [str.split()]
    without argument take for white space. *)
Definition isspace (c : N) : bool :=
  (((9 <=? c) && (c <=? 13)) || ((28 <=? c) && (c <=? 32))
   || (c =? 0x85) || (c =? 0xA0) || (c =? 0x1680)
   || ((0x2000 <=? c) && (c <=? 0x200A))
   || (c =? 0x2028) || (c =? 0x2029) || (c =? 0x202F) || (c =? 0x205F)
   || (c =? 0x3000))%N.

Fixpoint lstrip (s : str) : str :=
  match s with
  | c :: s' => if isspace c then lstrip s' else s
  | [] => []
  end.

Definition rstrip (s : str) : str := rev (lstrip (rev s)).

Definition strip (s : str) : str := rstrip (lstrip s).

(** [s.split()]: the maximal runs of characters that are not white space;
    [word] is the run being read. *)
Fixpoint split_from (word : str) (s : str) : list str :=
  match s with
  | [] => if truthy word then [word] else []
  | c :: s' =>
      if isspace c
      then (if truthy word then word :: split_from [] s' else split_from [] s')
      else split_from (word ++ [c]) s'
  end.

Definition split (s : str) : list str := split_from [] s.

(** What one turn of the loop of [main] does after reading a line. *)
Inductive outcome :=
| Continue (printed : str)                (* [print(...)], next turn *)
| Break (saved : World) (printed : str)   (* [save_data(book)], [print], [break] *)
| Uncaught (message : str).               (* an exception leaves [main] *)

Definition print_result (r : World * result str) : World * outcome :=
  match r with
  | (w, Ok s) => (w, Continue s)
  | (w, Raise e) => (w, Uncaught (exn_msg e))
  end.

(** How a session ends: the book is saved, or an exception ends the
    program. *)
Inductive ending :=
| Saved (book : World)
| Died (message : str).

Section CommandLoop.

(** [str.lower], which the model leaves open. *)
Variable lower : str -> str.

Definition parse_input (user_input : str) : option (str * list str) :=
  match split (strip user_input) with
  | [] => None
  | command :: args => Some (lower command, args)
  end.

(** The body of [while True] for the line [input] returns.  Unpacking
    [None] raises a [TypeError]. *)
Definition main_turn (line : str) (book : World) : World * outcome :=
  let user_input := strip line in
  if negb (truthy user_input)
  then (book, Continue (lit "Please enter the command:"))
  else
    match parse_input user_input with
    | None => (book, Uncaught (lit "cannot unpack non-iterable NoneType object"))
    | Some (command, args) =>
        if existsb (str_eqb command) [lit "close"; lit "exit"]
        then (book, Break book (lit "Good bye!"))
        else if str_eqb command (lit "hello")
        then (book, Continue (lit "How can I help you?"))
        else if str_eqb command (lit "add")
        then print_result (add_contact args book)
        else if str_eqb command (lit "change")
        then print_result (change_phone args book)
        else if str_eqb command (lit "phone")
        then print_result (show_phone args book)
        else if str_eqb command (lit "all")
        then print_result (all_contacts args book)
        else if str_eqb command (lit "add-birthday")
        then print_result (add_birthday args book)
        else if str_eqb command (lit "show-birthday")
        then print_result (show_birthday args book)
        else if str_eqb command (lit "birthdays")
        then print_result (birthdays args book)
        else (book, Continue (lit "Invalid command."))
    end.

(** The loop on the lines [input] returns one after the other; when they
    run out [input] raises [EOFError].  The result is what was printed
    and how the session ended. *)
Fixpoint main_loop (lines : list str) (book : World) : list str * ending :=
  match lines with
  | [] => ([], Died (lit "EOF when reading a line"))
  | line :: rest =>
      match main_turn line book with
      | (book', Continue printed) =>
          let '(out, e) := main_loop rest book' in (printed :: out, e)
      | (_, Break saved printed) => ([printed], Saved saved)
      | (_, Uncaught message) => ([], Died message)
      end
  end.

(** [main], from the book [load_data] returned. *)
Definition main (lines : list str) (book : World) : list str * ending :=
  let '(out, e) := main_loop lines book in
  (lit "Welcome to the assistant bot!" :: out, e).

End CommandLoop.

(** [str.lower] on ASCII text. *)
Definition ascii_lower (s : str) : str :=
  map (fun c => if ((65 <=? c) && (c <=? 90))%N then (c + 32)%N else c) s.

(** * Properties *)

(** ** Results and the monad *)

Lemma bind_ok {S A B} (m : M S A) (k : A -> M S B) s s' a :
  m s = (s', Ok a) -> bind m k s = k a s'.
Proof. intros H. unfold bind. now rewrite H. Qed.

Lemma bind_raise {S A B} (m : M S A) (k : A -> M S B) s s' e :
  m s = (s', Raise e) -> bind m k s = (s', Raise e).
Proof. intros H. unfold bind. now rewrite H. Qed.

Lemma str_eqb_eq (a b : str) : str_eqb a b = true <-> a = b.
Proof. unfold str_eqb. apply bool_decide_eq_true. Qed.

Lemma str_eqb_neq (a b : str) : str_eqb a b = false <-> a <> b.
Proof. unfold str_eqb. apply bool_decide_eq_false. Qed.

Lemma str_eqb_refl (a : str) : str_eqb a a = true.
Proof. now apply str_eqb_eq. Qed.

(** ** Phone validation *)

Lemma ascii_digit_re_digit c : ascii_digit c = true -> re_digit c = true.
Proof.
  unfold ascii_digit, re_digit, Nd_runs. intros H.
  cbn [existsb]. unfold in_run at 1.
  apply andb_prop in H as [H1 H2]. apply N.leb_le in H1, H2.
  replace (48 <=? c)%N with true by (symmetry; apply N.leb_le; lia).
  replace (c <? 48 + 10)%N with true by (symmetry; apply N.ltb_lt; lia).
  reflexivity.
Qed.

(** [\d{n}] takes [n] digits or fails; it never backtracks. *)
Lemma re_rep_d n s :
  re_rep n re_d s =
  if (n <=? length s)%nat && forallb re_digit (take n s)
  then [(take n s, drop n s)] else [].
Proof.
  revert s. induction n as [|n IH]; intros s.
  - now destruct s.
  - destruct s as [|c s]; [reflexivity|].
    cbn [re_rep]. unfold re_seq.
    change (re_d (c :: s)) with (if re_digit c then [([c], s)] else []).
    cbn [take drop forallb length].
    change (S n <=? S (length s))%nat with (n <=? length s)%nat.
    destruct (re_digit c) eqn:E.
    + cbn [mbind list_bind mapM app]. rewrite IH, andb_true_l.
      destruct ((n <=? length s)%nat && forallb re_digit (take n s)); reflexivity.
    + now rewrite andb_false_r.
Qed.

Lemma phone_pattern_matches s :
  is_Some (re_match phone_pattern s) <->
  (10 <= length s)%nat /\ forallb re_digit (take 10 s) = true
  /\ (drop 10 s = [] \/ drop 10 s = [NL]).
Proof.
  unfold re_match, phone_pattern, re_seq. rewrite re_rep_d.
  destruct (10 <=? length s)%nat eqn:Hlen; cbn [andb].
  - apply Nat.leb_le in Hlen.
    destruct (forallb re_digit (take 10 s)) eqn:Hd.
    + cbn. unfold re_end.
      destruct (drop 10 s) as [|c [|c' r]] eqn:Hr; cbn.
      * split; [intros _; repeat split; auto | intros _; eexists; reflexivity].
      * destruct (c =? NL)%N eqn:Hc; cbn.
        -- apply N.eqb_eq in Hc. subst c.
           split; [intros _; repeat split; auto | intros _; eexists; reflexivity].
        -- apply N.eqb_neq in Hc.
           split; [intros [? H]; discriminate H |].
           intros (_ & _ & [H | H]); [discriminate H | congruence].
      * split; [intros [? H]; discriminate H |].
        intros (_ & _ & [H | H]); discriminate H.
    + cbn. split; [intros [? H]; discriminate H | intros (_ & H & _); discriminate H].
  - apply Nat.leb_gt in Hlen. cbn.
    split; [intros [? H]; discriminate H | intros (H & _); lia].
Qed.

Lemma Phone_init_inv s p : Phone.init s = Ok p -> p = Field.init s.
Proof. unfold Phone.init. destruct (negb _); congruence. Qed.

(** What [Phone] accepts: ten decimal digits of any script, optionally
    followed by one newline. *)
Lemma Phone_init_accepts s :
  Phone.init s = Ok (Field.init s) <->
  (10 <= length s)%nat /\ forallb re_digit (take 10 s) = true
  /\ (drop 10 s = [] \/ drop 10 s = [NL]).
Proof.
  rewrite <- phone_pattern_matches. unfold Phone.init.
  destruct (bool_decide (is_Some (re_match phone_pattern s))) eqn:H; cbn.
  - apply bool_decide_eq_true in H. tauto.
  - apply bool_decide_eq_false in H. split; [discriminate | tauto].
Qed.

Lemma Phone_init_rejects s :
  Phone.init s = Raise (ValueError (lit "Phone number must be exactly 10 digits."))
  \/ Phone.init s = Ok (Field.init s).
Proof. unfold Phone.init. destruct (negb _); auto. Qed.

(** The half of the rule that holds: ten ASCII digits are accepted, and a
    string shorter than ten characters is refused. *)
Lemma Phone_init_ten_ascii_digits s :
  ten_ascii_digits s = true -> Phone.init s = Ok (Field.init s).
Proof.
  unfold ten_ascii_digits. intros H. apply andb_prop in H as [Hl Hd].
  apply Nat.eqb_eq in Hl. apply Phone_init_accepts.
  split; [lia|]. split.
  - rewrite firstn_all2 by lia.
    apply forallb_forall. intros c Hc. apply ascii_digit_re_digit.
    rewrite forallb_forall in Hd. now apply Hd.
  - left. apply skipn_all2. lia.
Qed.

Lemma Phone_init_short s :
  (length s < 10)%nat ->
  Phone.init s = Raise (ValueError (lit "Phone number must be exactly 10 digits.")).
Proof.
  intros Hl. destruct (Phone_init_rejects s) as [H | H]; [exact H|].
  apply Phone_init_accepts in H. lia.
Qed.

(** C4 (the code departs from the claim).  [Phone] is to accept exactly the
    strings of ten ASCII digits.  The pattern [^\d{10}$] accepts more: [$]
    also matches before a final newline, and [\d] matches the decimal
    digits of every script.  Here ["1234567890\n"] (eleven characters) and
    ten ARABIC-INDIC digits U+0661.. are accepted, neither of which is a
    string of ten ASCII digits. *)
Theorem C4_phone_accepts_more_than_ten_ascii_digits :
  let with_newline := lit "1234567890" ++ [NL] in
  let arabic_indic :=
    [0x661; 0x662; 0x663; 0x664; 0x665; 0x666; 0x667; 0x668; 0x669; 0x660]%N in
  ten_ascii_digits with_newline = false
  /\ Phone.init with_newline = Ok (Field.init with_newline)
  /\ ten_ascii_digits arabic_indic = false
  /\ Phone.init arabic_indic = Ok (Field.init arabic_indic).
Proof. vm_compute. repeat split. Qed.

(** ** Phones of a record *)

Section PhoneList.

Implicit Types (l : list Phone.t) (v : str) (p : Phone.t).

Local Abbreviation has v := (fun p : Field.t => str_eqb (Field.value p) v).

Lemma find_value l v p :
  find (has v) l = Some p -> Field.value p = v.
Proof.
  intros H. apply find_some in H as [_ H]. now apply str_eqb_eq in H.
Qed.

Lemma find_none_count l v :
  find (has v) l = None <-> count_phone v l = O.
Proof.
  induction l as [|q l IH]; cbn; [tauto|].
  destruct (str_eqb (Field.value q) v); [split; [discriminate | lia]|].
  rewrite IH. lia.
Qed.

Lemma find_some_count l v :
  is_Some (find (has v) l) <-> (1 <= count_phone v l)%nat.
Proof.
  destruct (find (has v) l) eqn:H.
  - split; [intros _ | intros _; eauto].
    destruct (count_phone v l) eqn:Hc; [|lia].
    apply find_none_count in Hc. congruence.
  - apply find_none_count in H. rewrite H.
    split; [intros [? ?]; discriminate | lia].
Qed.

(** [remove] on the object [find_phone] has found drops the first phone of
    that value. *)
Lemma list_remove_found l v p :
  find (has v) l = Some p -> list_remove p l = Some (remove_first v l).
Proof.
  induction l as [|q l IH]; cbn; [discriminate|].
  destruct (str_eqb (Field.value q) v) eqn:E.
  - intros [= ->]. now rewrite bool_decide_eq_true_2.
  - intros H. rewrite bool_decide_eq_false_2.
    + now rewrite (IH H).
    + intros ->. apply find_value in H. apply str_eqb_neq in E. auto.
Qed.

Lemma count_remove_first l v :
  count_phone v (remove_first v l) = (count_phone v l - 1)%nat.
Proof.
  induction l as [|q l IH]; cbn; [reflexivity|].
  destruct (str_eqb (Field.value q) v) eqn:E; cbn; [lia|].
  rewrite E, IH. lia.
Qed.

Lemma count_remove_first_other l v v' :
  v' <> v -> count_phone v' (remove_first v l) = count_phone v' l.
Proof.
  intros Hne. induction l as [|q l IH]; cbn; [reflexivity|].
  destruct (str_eqb (Field.value q) v) eqn:E; cbn.
  - apply str_eqb_eq in E.
    replace (str_eqb (Field.value q) v') with false; [reflexivity|].
    symmetry. apply str_eqb_neq. congruence.
  - now rewrite IH.
Qed.

Lemma length_remove_first l v :
  (1 <= count_phone v l)%nat ->
  S (length (remove_first v l)) = length l.
Proof.
  induction l as [|q l IH]; cbn; [lia|].
  destruct (str_eqb (Field.value q) v); cbn; [reflexivity|].
  intros H. rewrite IH; [reflexivity | exact H].
Qed.

Lemma remove_first_absent l v :
  count_phone v l = O -> remove_first v l = l.
Proof.
  induction l as [|q l IH]; cbn; [reflexivity|].
  destruct (str_eqb (Field.value q) v); [lia|].
  intros H. now rewrite IH.
Qed.

Lemma count_app l l' v :
  count_phone v (l ++ l') = (count_phone v l + count_phone v l')%nat.
Proof. induction l as [|q l IH]; cbn; [reflexivity | rewrite IH; lia]. Qed.

End PhoneList.

(** ** The methods of a record in closed form *)

Lemma find_phone_eq phone self :
  Record_.find_phone phone self =
  (self, Ok (find (fun p => str_eqb (Field.value p) phone) (Record_.phones self))).
Proof. reflexivity. Qed.

Lemma add_phone_ok phone self :
  Phone.init phone = Ok (Field.init phone) ->
  Record_.add_phone phone self =
  (Record_.set_phones (Record_.phones self ++ [Field.init phone]) self, Ok tt).
Proof. intros H. unfold Record_.add_phone, bind, lift. now rewrite H. Qed.

Lemma add_phone_raise phone self e :
  Phone.init phone = Raise e -> Record_.add_phone phone self = (self, Raise e).
Proof. intros H. unfold Record_.add_phone, bind, lift. now rewrite H. Qed.

(** [add_phone] succeeds exactly on a phone that [Phone] accepts. *)
Lemma add_phone_ok_inv phone self self' :
  Record_.add_phone phone self = (self', Ok tt) ->
  Phone.init phone = Ok (Field.init phone).
Proof.
  destruct (Phone_init_rejects phone) as [H | H]; [|intros _; exact H].
  rewrite (add_phone_raise _ _ _ H). discriminate.
Qed.

Lemma remove_phone_eq phone self :
  Record_.remove_phone phone self =
  if (1 <=? count_phone phone (Record_.phones self))%nat
  then (Record_.set_phones (remove_first phone (Record_.phones self)) self, Ok true)
  else (self, Ok false).
Proof.
  unfold Record_.remove_phone. unfold bind at 1. rewrite find_phone_eq.
  destruct (find (fun p : Field.t => str_eqb (Field.value p) phone) (Record_.phones self))
    as [o|] eqn:Hf.
  - assert (Hc : (1 <= count_phone phone (Record_.phones self))%nat)
      by (apply find_some_count; rewrite Hf; eauto).
    apply Nat.leb_le in Hc. rewrite Hc.
    unfold bind, get. now rewrite (list_remove_found _ _ _ Hf).
  - apply find_none_count in Hf. now rewrite Hf.
Qed.

Lemma edit_phone_eq old new self :
  Record_.edit_phone old new self =
  if (1 <=? count_phone old (Record_.phones self))%nat
  then match Phone.init new with
       | Ok p =>
           (Record_.set_phones
              (remove_first old (Record_.phones self ++ [p])) self, Ok tt)
       | Raise e => (self, Raise e)
       end
  else (self, Raise (ValueError (lit "Phone number " ++ old ++ lit " not found."))).
Proof.
  unfold Record_.edit_phone. unfold bind at 1. rewrite find_phone_eq.
  destruct (find (fun p : Field.t => str_eqb (Field.value p) old) (Record_.phones self))
    as [o|] eqn:Hf.
  - assert (Hc : (1 <= count_phone old (Record_.phones self))%nat)
      by (apply find_some_count; rewrite Hf; eauto).
    pose proof Hc as Hb. apply Nat.leb_le in Hb. rewrite Hb.
    destruct (Phone_init_rejects new) as [H | H]; rewrite H.
    + unfold bind at 1. now rewrite (add_phone_raise _ _ _ H).
    + unfold bind at 1. rewrite (add_phone_ok _ _ H).
      unfold bind at 1. rewrite remove_phone_eq. cbn [Record_.phones Record_.set_phones].
      rewrite count_app.
      replace (1 <=? _ + _)%nat with true by (symmetry; apply Nat.leb_le; lia).
      reflexivity.
  - apply find_none_count in Hf. now rewrite Hf.
Qed.

(** [edit_phone] returns when the old phone is stored and the new one is
    valid, and only then. *)
Lemma edit_phone_succeeds old new self :
  (exists self', Record_.edit_phone old new self = (self', Ok tt)) <->
  (1 <= count_phone old (Record_.phones self))%nat
  /\ Phone.init new = Ok (Field.init new).
Proof.
  rewrite edit_phone_eq.
  destruct (1 <=? count_phone old (Record_.phones self))%nat eqn:Hc.
  - apply Nat.leb_le in Hc.
    destruct (Phone_init_rejects new) as [H | H]; rewrite H.
    + split; [intros [? ?]; discriminate | intros [_ ?]; discriminate].
    + split; [auto | intros _; eauto].
  - apply Nat.leb_gt in Hc.
    split; [intros [? ?]; discriminate | lia].
Qed.

(** C2 (as amended).  After [edit_phone(old, new)] has succeeded on a
    record, [find_phone(new)] returns a phone of value [new] and the record
    holds as many phones as before; [find_phone(old)] returns [None]
    exactly when [old] was stored once and [new] differs from [old]
    (duplicates are allowed, and only the first [old] is removed). *)
Theorem C2_edit_phone_effect (self self' : Record_.t) (old new : str) :
  Record_.edit_phone old new self = (self', Ok tt) ->
  (exists p, Record_.find_phone new self' = (self', Ok (Some p))
             /\ Field.value p = new)
  /\ length (Record_.phones self') = length (Record_.phones self)
  /\ (Record_.find_phone old self' = (self', Ok None)
      <-> count_phone old (Record_.phones self) = 1%nat /\ new <> old).
Proof.
  intros H.
  assert (Hs : exists s, Record_.edit_phone old new self = (s, Ok tt)) by eauto.
  apply edit_phone_succeeds in Hs as [Hc Hn].
  rewrite edit_phone_eq in H. apply Nat.leb_le in Hc. rewrite Hc, Hn in H.
  apply Nat.leb_le in Hc. injection H as <-.
  set (l := Record_.phones self) in *.
  assert (Hcount : forall v,
    count_phone v (remove_first old (l ++ [Field.init new])) =
    (count_phone v l + (if str_eqb new v then 1 else 0)
     - (if str_eqb old v then 1 else 0))%nat).
  { intros v. destruct (str_eqb old v) eqn:E.
    - apply str_eqb_eq in E. subst v.
      rewrite count_remove_first, count_app. cbn. lia.
    - apply str_eqb_neq in E.
      rewrite count_remove_first_other by congruence.
      rewrite count_app. cbn. lia. }
  split; [|split].
  - rewrite find_phone_eq. cbn [Record_.phones Record_.set_phones].
    destruct (find _ _) as [p|] eqn:Hf.
    + exists p. split; [reflexivity|]. now apply find_value in Hf.
    + apply find_none_count in Hf. rewrite Hcount, str_eqb_refl in Hf.
      destruct (str_eqb old new) eqn:E; [apply str_eqb_eq in E; subst new|]; lia.
  - cbn [Record_.phones Record_.set_phones].
    pose proof (length_remove_first (l ++ [Field.init new]) old) as Hl.
    rewrite count_app, length_app in Hl. cbn [length] in Hl.
    rewrite Nat.add_1_r in Hl. apply eq_add_S, Hl. lia.
  - rewrite find_phone_eq. cbn [Record_.phones Record_.set_phones].
    split.
    + intros H. injection H as H. apply find_none_count in H.
      rewrite Hcount, str_eqb_refl in H.
      destruct (str_eqb new old) eqn:E; [lia|].
      apply str_eqb_neq in E. split; [lia | exact E].
    + intros [H1 H2]. repeat f_equal.
      apply find_none_count. rewrite Hcount, str_eqb_refl.
      replace (str_eqb new old) with false by (symmetry; now apply str_eqb_neq).
      lia.
Qed.

Lemma C2_edit_phone_effect_witness :
  let self' := fst (Record_.edit_phone (lit "1111111111") (lit "2222222222") bob_one_phone) in
  (exists p, Record_.find_phone (lit "2222222222") self' = (self', Ok (Some p))
             /\ Field.value p = lit "2222222222")
  /\ length (Record_.phones self') = length (Record_.phones bob_one_phone)
  /\ (Record_.find_phone (lit "1111111111") self' = (self', Ok None)
      <-> count_phone (lit "1111111111") (Record_.phones bob_one_phone) = 1%nat
          /\ lit "2222222222" <> lit "1111111111").
Proof.
  intros self'.
  apply (C2_edit_phone_effect bob_one_phone self' (lit "1111111111") (lit "2222222222")).
  vm_compute. reflexivity.
Defined.

(** C2 as it was stated fails: with the old number stored twice,
    [edit_phone] succeeds and [find_phone(old)] still finds it. *)
Lemma C2_counterexample :
  exists self' p,
    Record_.edit_phone (lit "1111111111") (lit "2222222222") bob_two_phones
      = (self', Ok tt)
    /\ Record_.find_phone (lit "1111111111") self' = (self', Ok (Some p)).
Proof. eexists. eexists. split; vm_compute; reflexivity. Qed.

(** C9 (as amended).  After [add_phone(p)] with a valid [p],
    [find_phone(p)] returns a phone of value [p].  [remove_phone(p)]
    always returns, and [find_phone(p)] then returns [None] exactly when
    the record held [p] at most once (a record may hold a phone several
    times, and [remove_phone] drops only the first). *)
Theorem C9_add_find_and_remove_find (self : Record_.t) (p : str) :
  (Phone.init p = Ok (Field.init p) ->
   exists self' o,
     Record_.add_phone p self = (self', Ok tt)
     /\ Record_.find_phone p self' = (self', Ok (Some o))
     /\ Field.value o = p)
  /\ (exists self' b,
        Record_.remove_phone p self = (self', Ok b)
        /\ (Record_.find_phone p self' = (self', Ok None)
            <-> (count_phone p (Record_.phones self) <= 1)%nat)).
Proof.
  split.
  - intros Hp. rewrite (add_phone_ok _ _ Hp).
    set (self' := Record_.set_phones _ self).
    destruct (find (fun q : Field.t => str_eqb (Field.value q) p)
                (Record_.phones self')) as [o|] eqn:Hf.
    + exists self', o. rewrite find_phone_eq, Hf.
      repeat split. now apply find_value in Hf.
    + apply find_none_count in Hf. subst self'.
      cbn [Record_.phones Record_.set_phones] in Hf.
      rewrite count_app in Hf. cbn in Hf.
      rewrite str_eqb_refl in Hf. lia.
  - rewrite remove_phone_eq.
    destruct (1 <=? count_phone p (Record_.phones self))%nat eqn:Hc.
    + apply Nat.leb_le in Hc. eexists. eexists. split; [reflexivity|].
      rewrite find_phone_eq. cbn [Record_.phones Record_.set_phones].
      split.
      * intros H. injection H as H. apply find_none_count in H.
        rewrite count_remove_first in H. lia.
      * intros H. repeat f_equal. apply find_none_count.
        rewrite count_remove_first. lia.
    + apply Nat.leb_gt in Hc. eexists. eexists. split; [reflexivity|].
      rewrite find_phone_eq. split; [intros _; lia|].
      intros _. repeat f_equal. apply find_none_count. lia.
Qed.

Lemma C9_add_find_and_remove_find_witness :
  exists self' o,
    Record_.add_phone (lit "1111111111") bob_one_phone = (self', Ok tt)
    /\ Record_.find_phone (lit "1111111111") self' = (self', Ok (Some o))
    /\ Field.value o = lit "1111111111".
Proof.
  apply (C9_add_find_and_remove_find bob_one_phone (lit "1111111111")).
  vm_compute. reflexivity.
Defined.

(** C9 as it was stated fails: a phone stored twice is still found after
    [remove_phone]. *)
Lemma C9_counterexample :
  exists self' p,
    Record_.remove_phone (lit "1111111111") bob_two_phones = (self', Ok true)
    /\ Record_.find_phone (lit "1111111111") self' = (self', Ok (Some p)).
Proof. eexists. eexists. split; vm_compute; reflexivity. Qed.

(** The state [bob_two_phones] is one the program reaches: a new record
    after two [add_phone] of the same number. *)
Lemma bob_two_phones_reachable :
  (self <-r Record_.init (lit "Bob") None;;
   Ok (fst (Record_.add_phone (lit "1111111111")
              (fst (Record_.add_phone (lit "1111111111") self)))))%py
  = Ok bob_two_phones.
Proof. vm_compute. reflexivity. Qed.

(** [edit_phone] of a phone the record lacks raises and changes nothing. *)
Lemma edit_phone_not_found old new self :
  count_phone old (Record_.phones self) = O ->
  Record_.edit_phone old new self =
  (self, Raise (ValueError (lit "Phone number " ++ old ++ lit " not found."))).
Proof. intros H. rewrite edit_phone_eq. now rewrite H. Qed.

(** Every failing method of a record leaves the record as it was. *)
Lemma record_methods_fail_unchanged self self' e :
  (forall p, Record_.add_phone p self = (self', Raise e) -> self' = self)
  /\ (forall p, Record_.remove_phone p self = (self', Raise e) -> self' = self)
  /\ (forall o n, Record_.edit_phone o n self = (self', Raise e) -> self' = self)
  /\ (forall b, Record_.add_birthday b self = (self', Raise e) -> self' = self).
Proof.
  repeat split.
  - intros p. destruct (Phone_init_rejects p) as [H | H].
    + rewrite (add_phone_raise _ _ _ H). congruence.
    + rewrite (add_phone_ok _ _ H). discriminate.
  - intros p. rewrite remove_phone_eq. destruct (_ <=? _)%nat; discriminate.
  - intros o n. rewrite edit_phone_eq.
    destruct (_ <=? _)%nat; [|congruence].
    destruct (Phone.init n); [discriminate | congruence].
  - intros b. unfold Record_.add_birthday, bind, lift.
    destruct (Birthday.init b); [discriminate | congruence].
Qed.

(** ** Dictionaries *)

Section Dict.

Context {V : Type}.
Implicit Types (d : dict V) (k : str) (v : V).

Lemma dict_get_In d k v : dict_get d k = Some v -> In (k, v) d.
Proof.
  induction d as [|[k' v'] d IH]; cbn; [discriminate|].
  destruct (str_eqb k' k) eqn:E.
  - apply str_eqb_eq in E. intros [= ->]. left. now subst.
  - intros H. right. auto.
Qed.

Lemma dict_get_None d k : dict_get d k = None <-> ~ In k (map fst d).
Proof.
  induction d as [|[k' v'] d IH]; cbn; [tauto|].
  destruct (str_eqb k' k) eqn:E.
  - apply str_eqb_eq in E. split; [discriminate | intros H; exfalso; auto].
  - apply str_eqb_neq in E. rewrite IH. tauto.
Qed.

Lemma In_dict_get d k v :
  List.NoDup (map fst d) -> In (k, v) d -> dict_get d k = Some v.
Proof.
  induction d as [|[k' v'] d IH]; cbn; [tauto|].
  intros Hnd. apply List.NoDup_cons_iff in Hnd as [Hk Hnd].
  intros [[= -> ->] | Hin].
  - now rewrite str_eqb_refl.
  - destruct (str_eqb k' k) eqn:E; [|auto].
    apply str_eqb_eq in E. subst k'. exfalso. apply Hk.
    change k with (fst (k, v)). now apply in_map.
Qed.

Lemma dict_set_absent d k v :
  dict_get d k = None -> dict_set d k v = d ++ [(k, v)].
Proof.
  induction d as [|[k' v'] d IH]; cbn; [reflexivity|].
  destruct (str_eqb k' k); [discriminate|].
  intros H. now rewrite IH.
Qed.

Lemma dict_set_keys d k v :
  map fst (dict_set d k v) =
  if dict_contains d k then map fst d else map fst d ++ [k].
Proof.
  unfold dict_contains.
  induction d as [|[k' v'] d IH]; cbn.
  - reflexivity.
  - destruct (str_eqb k' k) eqn:E; cbn.
    + reflexivity.
    + rewrite IH. now destruct (bool_decide (is_Some (dict_get d k))).
Qed.

Lemma In_dict_set d k v k0 v0 :
  In (k0, v0) (dict_set d k v) -> (k0 = k /\ v0 = v) \/ In (k0, v0) d.
Proof.
  induction d as [|[k' v'] d IH]; cbn.
  - intros [[= -> ->] | []]. auto.
  - destruct (str_eqb k' k) eqn:E; cbn.
    + apply str_eqb_eq in E. subst k'. intros [[= -> ->] | H]; auto.
    + intros [H | H]; [auto|]. apply IH in H. tauto.
Qed.

Lemma dict_get_set d k v k0 :
  dict_get (dict_set d k v) k0 = if str_eqb k k0 then Some v else dict_get d k0.
Proof.
  induction d as [|[k' v'] d IH]; cbn.
  - reflexivity.
  - destruct (str_eqb k' k) eqn:E; cbn.
    + apply str_eqb_eq in E. subst k'. now destruct (str_eqb k k0).
    + rewrite IH. destruct (str_eqb k' k0) eqn:E0; [|reflexivity].
      apply str_eqb_eq in E0. subst k0. apply str_eqb_neq in E.
      replace (str_eqb k k') with false; [reflexivity|].
      symmetry. apply str_eqb_neq. congruence.
Qed.

Lemma In_dict_del d k k0 v0 : In (k0, v0) (dict_del d k) -> In (k0, v0) d.
Proof.
  induction d as [|[k' v'] d IH]; cbn; [tauto|].
  destruct (str_eqb k' k); cbn; [auto|]. intros [H | H]; auto.
Qed.

Lemma dict_del_keys_NoDup d k :
  List.NoDup (map fst d) -> List.NoDup (map fst (dict_del d k)).
Proof.
  induction d as [|[k' v'] d IH]; cbn; [auto|].
  intros Hnd. apply List.NoDup_cons_iff in Hnd as [Hk Hnd].
  destruct (str_eqb k' k); cbn; [exact Hnd|].
  apply List.NoDup_cons_iff. split; [|auto].
  intros Hin. apply Hk. apply in_map_iff in Hin as [[k1 v1] [<- Hin]].
  apply In_dict_del in Hin. change (fst (k1, v1)) with (fst (k1, v1)).
  now apply (in_map fst) in Hin.
Qed.

(** After [del d[k]] the key is gone (the keys being distinct). *)
Lemma dict_get_del d k :
  List.NoDup (map fst d) -> dict_get (dict_del d k) k = None.
Proof.
  induction d as [|[k' v'] d IH]; cbn; [reflexivity|].
  intros Hnd. apply List.NoDup_cons_iff in Hnd as [Hk Hnd].
  destruct (str_eqb k' k) eqn:E; cbn.
  - apply str_eqb_eq in E. subst k'. now apply dict_get_None.
  - rewrite E. auto.
Qed.

End Dict.

(** ** The invariant of the directory *)

Section Keeps.

Context (P : World -> Prop).

Lemma keeps_ret {A} (a : A) : keeps P (ret a).
Proof. intros w H. exact H. Qed.

Lemma keeps_raise {A} e : keeps P (@raise World A e).
Proof. intros w H. exact H. Qed.

Lemma keeps_lift {A} (r : result A) : keeps P (lift r).
Proof. intros w H. exact H. Qed.

Lemma keeps_bind {A B} (m : M World A) (k : A -> M World B) :
  keeps P m -> (forall a, keeps P (k a)) -> keeps P (bind m k).
Proof.
  intros Hm Hk w H. unfold bind. specialize (Hm w H).
  destruct (m w) as [w' [a | e]]; cbn in *; [now apply Hk | exact Hm].
Qed.

(** Binding the result of a constructor: only its values matter. *)
Lemma keeps_bind_lift {A B} (r : result A) (k : A -> M World B) :
  (forall a, r = Ok a -> keeps P (k a)) -> keeps P (bind (lift r) k).
Proof.
  intros Hk w H. unfold bind, lift. destruct r as [a | e]; [|exact H].
  now apply Hk.
Qed.

Lemma keeps_input_error {A} (f : A -> M World str) a :
  keeps P (f a) -> keeps P (input_error f a).
Proof.
  intros Hf w H. unfold input_error. specialize (Hf w H).
  destruct (f a w) as [w' [s | []]]; exact Hf.
Qed.

Lemma keeps_find name : keeps P (AddressBook.find name).
Proof. intros w H. exact H. Qed.

(** [add_contact] keeps what its parts keep. *)
Lemma keeps_add_contact args :
  (forall name, keeps P (new (fresh_record name []))) ->
  (forall r, keeps P (AddressBook.add_record r)) ->
  (forall r phone, keeps P (on r (Record_.add_phone phone))) ->
  keeps P (add_contact args).
Proof.
  intros Hnew Hadd Hon.
  unfold add_contact. apply keeps_input_error. unfold add_contact_func.
  destruct args as [|name [|phone rest]]; try apply keeps_raise.
  apply keeps_bind; [apply keeps_find|]. intros found.
  apply keeps_bind.
  - destruct found as [r|]; [apply keeps_ret|].
    apply keeps_bind_lift. intros r Hr.
    assert (r = fresh_record name []) as ->.
    { destruct name; [discriminate|]. now injection Hr as <-. }
    apply keeps_bind; [apply Hnew|]. intros record.
    apply keeps_bind; [apply Hadd|]. intros _. apply keeps_ret.
  - intros [record message].
    apply keeps_bind; [|intros _; apply keeps_ret].
    destruct (truthy phone); [apply Hon | apply keeps_ret].
Qed.

End Keeps.

(** *** Names and keys *)

Lemma keeps_new r : keeps invariant (new r).
Proof.
  intros w [Hn Hk]. split; [|exact Hk].
  intros k x Hin. destruct (Hn k x Hin) as (o & Ho & Hname).
  exists o. split; [|exact Hname]. cbn.
  apply lookup_app_l_Some. exact Ho.
Qed.

Lemma keeps_add_record r : keeps invariant (AddressBook.add_record r).
Proof.
  intros w [Hn Hk]. unfold AddressBook.add_record, bind, deref.
  destruct (heap w !! r) as [o|] eqn:Ho; [|now split].
  cbn. split.
  - intros k x Hin. cbn in Hin. apply In_dict_set in Hin as [[-> ->] | Hin].
    + exists o. now split.
    + now apply Hn.
  - unfold keys_distinct. cbn. rewrite dict_set_keys.
    destruct (dict_contains (data w) _) eqn:E; [exact Hk|].
    apply List.NoDup_app; [exact Hk | repeat constructor; intros [] |].
    intros k Hin [Hk' | []]. subst k.
    apply bool_decide_eq_false in E. apply E.
    destruct (dict_get (data w) (Field.value (Record_.name o))) eqn:G; [eauto|].
    now apply dict_get_None in G.
Qed.

Lemma keeps_delete name : keeps invariant (AddressBook.delete name).
Proof.
  intros w [Hn Hk]. unfold AddressBook.delete, bind, get.
  destruct (dict_contains (data w) name); [|now split].
  cbn. split.
  - intros k x Hin. apply In_dict_del in Hin. now apply Hn.
  - now apply dict_del_keys_NoDup.
Qed.

(** A method that leaves the name of its record alone keeps the invariant
    when called through a reference. *)
Lemma keeps_on {A} r (m : M Record_.t A) :
  (forall o, Record_.name (fst (m o)) = Record_.name o) -> keeps invariant (on r m).
Proof.
  intros Hm w [Hn Hk]. unfold on.
  destruct (heap w !! r) as [o|] eqn:Ho; [|now split].
  specialize (Hm o). destruct (m o) as [o' a]. cbn [fst] in *.
  split; [|exact Hk].
  intros k x Hin. destruct (Hn k x Hin) as (o0 & Ho0 & Hname).
  cbn [heap set_heap].
  destruct (decide (r = x)) as [-> | Hne].
  - exists o'. split.
    + apply list_lookup_insert_eq. now apply lookup_lt_Some in Ho.
    + congruence.
  - exists o0. split; [|exact Hname]. now rewrite list_lookup_insert_ne.
Qed.

Lemma add_phone_name p o : Record_.name (fst (Record_.add_phone p o)) = Record_.name o.
Proof.
  destruct (Phone_init_rejects p) as [H | H].
  - now rewrite (add_phone_raise _ _ _ H).
  - now rewrite (add_phone_ok _ _ H).
Qed.

Lemma remove_phone_name p o :
  Record_.name (fst (Record_.remove_phone p o)) = Record_.name o.
Proof. rewrite remove_phone_eq. now destruct (_ <=? _)%nat. Qed.

Lemma edit_phone_name old new o :
  Record_.name (fst (Record_.edit_phone old new o)) = Record_.name o.
Proof.
  rewrite edit_phone_eq. destruct (_ <=? _)%nat; [|reflexivity].
  now destruct (Phone.init new).
Qed.

Lemma add_birthday_name b o :
  Record_.name (fst (Record_.add_birthday b o)) = Record_.name o.
Proof.
  unfold Record_.add_birthday, bind, lift. now destruct (Birthday.init b).
Qed.

Lemma step_invariant op w : invariant w -> invariant (step op w).
Proof.
  destruct op as [n b | r | n | n | r p | r p | r old_ new_ | r b | args];
    cbn [step]; intros H.
  - revert H. apply keeps_bind_lift. intros r _. apply keeps_new.
  - now apply keeps_add_record.
  - now apply keeps_delete.
  - exact H.
  - revert H. apply keeps_on, add_phone_name.
  - revert H. apply keeps_on, remove_phone_name.
  - revert H. apply keeps_on, edit_phone_name.
  - revert H. apply keeps_on, add_birthday_name.
  - revert H. apply keeps_add_contact.
    + intros ?. apply keeps_new.
    + apply keeps_add_record.
    + intros ? ?. apply keeps_on, add_phone_name.
Qed.

Lemma run_invariant ops w : invariant w -> invariant (run ops w).
Proof.
  revert w. induction ops as [|op ops IH]; intros w H; cbn; [exact H|].
  apply IH. now apply step_invariant.
Qed.

Lemma empty_book_invariant h today : invariant (empty_book h today).
Proof. split; [intros k r [] | constructor]. Qed.

(** *** Birthdays *)

Lemma Birthday_init_ok v b :
  Birthday.init v = Ok b ->
  b = Field.init v /\ exists bd, datetime.strptime_dmY v = Ok bd.
Proof.
  unfold Birthday.init.
  destruct (datetime.strptime_dmY v) as [bd | []]; try discriminate.
  intros [= <-]. eauto.
Qed.

Lemma Record_init_birthday_ok n b r : Record_.init n b = Ok r -> birthday_ok r.
Proof.
  unfold Record_.init, rbind.
  destruct (Name.init n); [|discriminate].
  destruct b as [v|].
  - destruct (truthy v).
    + destruct (Birthday.init v) as [x|] eqn:E; [|discriminate].
      intros [= <-] y [= <-]. now apply Birthday_init_ok in E as [-> ?].
    + intros [= <-] y [=].
  - intros [= <-] y [=].
Qed.

Lemma birthdays_new r : birthday_ok r -> keeps birthdays_valid (new r).
Proof.
  intros Hr w H o Hin. cbn in Hin. apply in_app_iff in Hin as [Hin | [<- | []]]; auto.
Qed.

(** The methods of [AddressBook] touch no record. *)
Lemma birthdays_same_heap {A} (m : M World A) :
  (forall w, heap (fst (m w)) = heap w) -> keeps birthdays_valid m.
Proof. intros Hm w H o Hin. rewrite Hm in Hin. now apply H. Qed.

Lemma add_record_heap r w : heap (fst (AddressBook.add_record r w)) = heap w.
Proof.
  unfold AddressBook.add_record, bind, deref. now destruct (heap w !! r).
Qed.

Lemma delete_heap n w : heap (fst (AddressBook.delete n w)) = heap w.
Proof.
  unfold AddressBook.delete, bind, get. now destruct (dict_contains (data w) n).
Qed.

Lemma birthdays_on {A} r (m : M Record_.t A) :
  (forall o, birthday_ok o -> birthday_ok (fst (m o))) ->
  keeps birthdays_valid (on r m).
Proof.
  intros Hm w H. unfold on.
  destruct (heap w !! r) as [o|] eqn:Ho; [|exact H].
  assert (Hok : birthday_ok o).
  { apply H. apply list_elem_of_In. now apply list_elem_of_lookup_2 in Ho. }
  specialize (Hm o Hok). destruct (m o) as [o' a]. cbn [fst heap set_heap] in *.
  intros x Hin. cbn [heap set_heap] in Hin. apply list_elem_of_In, list_elem_of_lookup in Hin as [i Hi].
  destruct (decide (r = i)) as [-> | Hne].
  - rewrite list_lookup_insert_eq in Hi by (now apply lookup_lt_Some in Ho).
    now injection Hi as <-.
  - rewrite list_lookup_insert_ne in Hi by exact Hne.
    apply H, list_elem_of_In. now apply list_elem_of_lookup_2 in Hi.
Qed.

Lemma add_phone_birthday p o :
  Record_.birthday (fst (Record_.add_phone p o)) = Record_.birthday o.
Proof.
  destruct (Phone_init_rejects p) as [H | H].
  - now rewrite (add_phone_raise _ _ _ H).
  - now rewrite (add_phone_ok _ _ H).
Qed.

Lemma remove_phone_birthday p o :
  Record_.birthday (fst (Record_.remove_phone p o)) = Record_.birthday o.
Proof. rewrite remove_phone_eq. now destruct (_ <=? _)%nat. Qed.

Lemma edit_phone_birthday old new o :
  Record_.birthday (fst (Record_.edit_phone old new o)) = Record_.birthday o.
Proof.
  rewrite edit_phone_eq. destruct (_ <=? _)%nat; [|reflexivity].
  now destruct (Phone.init new).
Qed.

Lemma add_birthday_ok v o :
  birthday_ok o -> birthday_ok (fst (Record_.add_birthday v o)).
Proof.
  intros H. unfold Record_.add_birthday, bind, lift.
  destruct (Birthday.init v) as [b|] eqn:E; [|exact H].
  cbn. intros y [= <-]. now apply Birthday_init_ok in E as [-> ?].
Qed.

Lemma step_birthdays_valid op w : birthdays_valid w -> birthdays_valid (step op w).
Proof.
  assert (Hsame : forall (f : Record_.t -> Record_.t),
            (forall o, Record_.birthday (f o) = Record_.birthday o) ->
            forall o, birthday_ok o -> birthday_ok (f o)).
  { intros f Hf o Ho b Hb. rewrite Hf in Hb. now apply Ho. }
  destruct op as [n b | r | n | n | r p | r p | r old_ new_ | r b | args];
    cbn [step]; intros H.
  - revert H. apply keeps_bind_lift. intros r Hr.
    apply birthdays_new. now apply Record_init_birthday_ok in Hr.
  - revert H. apply birthdays_same_heap, add_record_heap.
  - revert H. apply birthdays_same_heap, delete_heap.
  - exact H.
  - revert H. apply birthdays_on.
    apply (Hsame (fun o => fst (Record_.add_phone p o))), add_phone_birthday.
  - revert H. apply birthdays_on.
    apply (Hsame (fun o => fst (Record_.remove_phone p o))), remove_phone_birthday.
  - revert H. apply birthdays_on.
    apply (Hsame (fun o => fst (Record_.edit_phone old_ new_ o))), edit_phone_birthday.
  - revert H. apply birthdays_on. intros o. apply add_birthday_ok.
  - revert H. apply keeps_add_contact.
    + intros n. apply birthdays_new. intros b [=].
    + intros r. apply birthdays_same_heap, add_record_heap.
    + intros r p. apply birthdays_on.
      apply (Hsame (fun o => fst (Record_.add_phone p o))), add_phone_birthday.
Qed.

Lemma run_birthdays_valid ops w : birthdays_valid w -> birthdays_valid (run ops w).
Proof.
  revert w. induction ops as [|op ops IH]; intros w H; cbn; [exact H|].
  apply IH. now apply step_birthdays_valid.
Qed.

(** C8.  Starting from an empty directory, after any sequence of
    operations ([add_record], [delete], [find], and also the creation of
    records, the methods of the records and [add_contact]) every record in
    the directory is stored under its own name. *)
Theorem C8_names_match_keys (h : list Record_.t) (today : datetime.date)
  (ops : list operation) :
  names_match_keys (run ops (empty_book h today)).
Proof. apply run_invariant, empty_book_invariant. Qed.

(** The keys stay distinct as well. *)
Lemma run_keys_distinct h today ops : keys_distinct (run ops (empty_book h today)).
Proof. apply run_invariant, empty_book_invariant. Qed.

(** ** [add_contact] in closed form *)

Lemma set_heap_id w : set_heap (heap w) w = w.
Proof. now destruct w. Qed.

Lemma insert_last {A} (l : list A) (x y : A) :
  <[length l := y]> (l ++ [x]) = l ++ [y].
Proof. induction l as [|a l IH]; cbn; [reflexivity | f_equal; exact IH]. Qed.

Lemma lookup_last {A} (l : list A) (x : A) : (l ++ [x]) !! length l = Some x.
Proof. induction l as [|a l IH]; cbn; [reflexivity | exact IH]. Qed.

Lemma valid_phone_truthy phone :
  Phone.init phone = Ok (Field.init phone) -> truthy phone = true.
Proof.
  intros H. apply Phone_init_accepts in H as [H _].
  destruct phone; [cbn in H; lia | reflexivity].
Qed.

Lemma Record_init_name name :
  name <> [] ->
  Record_.init name None =
  Ok {| Record_.name := Field.init name; Record_.phones := [];
        Record_.birthday := None |}.
Proof. intros H. destruct name; [congruence | reflexivity]. Qed.

(** The name is known and the phone is valid: the phone is appended to the
    record found. *)
Lemma add_contact_known_valid w name phone rest r o :
  dict_get (data w) name = Some r ->
  heap w !! r = Some o ->
  Phone.init phone = Ok (Field.init phone) ->
  add_contact (name :: phone :: rest) w =
  (set_heap (<[r := Record_.set_phones (Record_.phones o ++ [Field.init phone]) o]>
               (heap w)) w,
   Ok (lit "Contact updated.")).
Proof.
  intros Hk Ho Hp. unfold add_contact, input_error, add_contact_func.
  unfold bind at 1. unfold AddressBook.find, bind at 1, get, ret. rewrite Hk.
  unfold bind at 1. rewrite (valid_phone_truthy _ Hp).
  unfold bind, on. rewrite Ho, (add_phone_ok _ _ Hp). reflexivity.
Qed.

(** The name is known and the phone is refused: nothing changes. *)
Lemma add_contact_known_invalid w name phone rest r o e :
  dict_get (data w) name = Some r ->
  heap w !! r = Some o ->
  truthy phone = true ->
  Phone.init phone = Raise e ->
  add_contact (name :: phone :: rest) w =
  (w, Ok (lit "Give me name and phone please.")).
Proof.
  intros Hk Ho Ht Hp. unfold add_contact, input_error, add_contact_func.
  unfold bind at 1. unfold AddressBook.find, bind at 1, get, ret. rewrite Hk.
  unfold bind at 1. rewrite Ht.
  unfold bind, on. rewrite Ho, (add_phone_raise _ _ _ Hp).
  destruct (Phone_init_rejects phone) as [H | H]; rewrite H in Hp.
  - injection Hp as <-.
    replace (<[r:=o]> (heap w)) with (heap w) by (symmetry; now apply list_insert_id).
    now rewrite set_heap_id.
  - discriminate.
Qed.

(** The name is new and the phone is valid: a record with that one phone
    is stored under the name, after the entries already there. *)
Lemma add_contact_new_valid w name phone rest :
  dict_get (data w) name = None ->
  name <> [] ->
  Phone.init phone = Ok (Field.init phone) ->
  add_contact (name :: phone :: rest) w =
  (with_new_record w name [Field.init phone], Ok (lit "Contact added.")).
Proof.
  intros Hk Hn Hp.
  unfold add_contact, input_error, add_contact_func, AddressBook.find,
    AddressBook.add_record, new, deref, on, bind, get, put, ret, lift.
  rewrite Hk, (Record_init_name _ Hn), (valid_phone_truthy _ Hp).
  cbn [heap data clock set_heap set_data].
  rewrite lookup_last.
  cbn [heap data clock set_heap set_data Record_.name Field.value Field.init].
  rewrite lookup_last.
  rewrite (add_phone_ok _ _ Hp), (dict_set_absent _ _ _ Hk), insert_last.
  reflexivity.
Qed.

(** The name is new and the phone is refused: the command answers with
    the error text, and the record created for the name stays in the book,
    without a phone. *)
Lemma add_contact_new_invalid w name phone rest e :
  dict_get (data w) name = None ->
  name <> [] ->
  truthy phone = true ->
  Phone.init phone = Raise e ->
  add_contact (name :: phone :: rest) w =
  (with_new_record w name [], Ok (lit "Give me name and phone please.")).
Proof.
  intros Hk Hn Ht Hp.
  unfold add_contact, input_error, add_contact_func, AddressBook.find,
    AddressBook.add_record, new, deref, on, bind, get, put, ret, lift.
  rewrite Hk, (Record_init_name _ Hn), Ht.
  cbn [heap data clock set_heap set_data].
  rewrite lookup_last.
  cbn [heap data clock set_heap set_data Record_.name Field.value Field.init].
  rewrite lookup_last.
  rewrite (add_phone_raise _ _ _ Hp), (dict_set_absent _ _ _ Hk), insert_last.
  destruct (Phone_init_rejects phone) as [H | H]; rewrite H in Hp.
  - injection Hp as <-. reflexivity.
  - discriminate.
Qed.

(** ** What the directory shows after [add_contact] *)

Lemma lookup_known w k r : dict_get (data w) k = Some r -> lookup w k = heap w !! r.
Proof. intros H. unfold lookup. now rewrite H. Qed.

Lemma names_match_keys_valid w k r :
  names_match_keys w -> dict_get (data w) k = Some r ->
  exists o, heap w !! r = Some o /\ Field.value (Record_.name o) = k.
Proof. intros Hn H. apply Hn. now apply dict_get_In. Qed.

Lemma lookup_None w k :
  names_match_keys w -> lookup w k = None -> dict_get (data w) k = None.
Proof.
  intros Hn H. unfold lookup in H.
  destruct (dict_get (data w) k) as [r|] eqn:E; [|reflexivity].
  destruct (names_match_keys_valid _ _ _ Hn E) as (o & Ho & _). congruence.
Qed.

(** Updating the record behind one key leaves the other keys alone: under
    the invariant no two keys share a record. *)
Lemma lookup_insert_other w name r o' k :
  names_match_keys w -> dict_get (data w) name = Some r -> k <> name ->
  lookup (set_heap (<[r := o']> (heap w)) w) k = lookup w k.
Proof.
  intros Hn Hr Hne. unfold lookup. cbn [data heap set_heap].
  destruct (dict_get (data w) k) as [r'|] eqn:E; [|reflexivity].
  apply list_lookup_insert_ne. intros <-.
  destruct (names_match_keys_valid _ _ _ Hn Hr) as (o1 & Ho1 & Hn1).
  destruct (names_match_keys_valid _ _ _ Hn E) as (o2 & Ho2 & Hn2).
  congruence.
Qed.

Lemma lookup_new_record_other w name ps k :
  names_match_keys w -> k <> name ->
  lookup (with_new_record w name ps) k = lookup w k.
Proof.
  intros Hn Hne. unfold lookup, with_new_record. cbn [data heap].
  destruct (dict_get (data w) name) as [r0|] eqn:E0.
  - (* the key is already there: the entry appended is shadowed *)
    assert (H : forall d : dict ref,
               dict_get (d ++ [(name, length (heap w))]) k =
               match dict_get d k with Some r => Some r
               | None => None end).
    { induction d as [|[k1 r1] d IH]; cbn.
      - replace (str_eqb name k) with false; [reflexivity|].
        symmetry. apply str_eqb_neq. congruence.
      - destruct (str_eqb k1 k); [reflexivity | exact IH]. }
    rewrite H. destruct (dict_get (data w) k) as [r|] eqn:E; [|reflexivity].
    destruct (names_match_keys_valid _ _ _ Hn E) as (o & Ho & _).
    rewrite Ho. now apply lookup_app_l_Some.
  - rewrite <- (dict_set_absent _ _ _ E0), dict_get_set.
    replace (str_eqb name k) with false
      by (symmetry; apply str_eqb_neq; congruence).
    destruct (dict_get (data w) k) as [r|] eqn:E; [|reflexivity].
    destruct (names_match_keys_valid _ _ _ Hn E) as (o & Ho & _).
    rewrite Ho. now apply lookup_app_l_Some.
Qed.

Lemma lookup_new_record w name ps :
  dict_get (data w) name = None ->
  lookup (with_new_record w name ps) name = Some (fresh_record name ps).
Proof.
  intros E. unfold lookup, with_new_record. cbn [data heap].
  rewrite <- (dict_set_absent _ _ _ E), dict_get_set, str_eqb_refl.
  apply lookup_last.
Qed.

(** C10.  In a directory that holds a record under [name], [add_contact]
    with a valid phone answers "Contact updated." and appends the phone to
    that record: its earlier phones, its birthday and its name stay, the
    keys of the book stay, and every other key shows the record it showed
    before.  For a name that is absent (and not empty) it answers
    "Contact added." and stores, after the entries already there, a new
    record with that one phone and no birthday. *)
Theorem C10_add_contact_appends (w : World) (name phone : str) (rest : list str) :
  names_match_keys w ->
  Phone.init phone = Ok (Field.init phone) ->
  (forall o, lookup w name = Some o ->
     exists w' o',
       add_contact (name :: phone :: rest) w = (w', Ok (lit "Contact updated."))
       /\ lookup w' name = Some o'
       /\ Record_.phones o' = Record_.phones o ++ [Field.init phone]
       /\ Record_.birthday o' = Record_.birthday o
       /\ Record_.name o' = Record_.name o
       /\ data w' = data w
       /\ (forall k, k <> name -> lookup w' k = lookup w k))
  /\ (lookup w name = None -> name <> [] ->
      exists w',
        add_contact (name :: phone :: rest) w = (w', Ok (lit "Contact added."))
        /\ lookup w' name = Some (fresh_record name [Field.init phone])
        /\ data w' = data w ++ [(name, length (heap w))]
        /\ (forall k, k <> name -> lookup w' k = lookup w k)).
Proof.
  intros Hn Hp. split.
  - intros o Ho. unfold lookup in Ho.
    destruct (dict_get (data w) name) as [r|] eqn:Hr; [|discriminate].
    rewrite (add_contact_known_valid _ _ _ rest _ _ Hr Ho Hp).
    eexists. eexists. split; [reflexivity|].
    split.
    { unfold lookup. cbn [data heap set_heap]. rewrite Hr.
      apply list_lookup_insert_eq. now apply lookup_lt_Some in Ho. }
    repeat split.
    intros k Hk. now apply (lookup_insert_other w name).
  - intros Ho Hne. apply (lookup_None _ _ Hn) in Ho.
    rewrite (add_contact_new_valid _ _ _ rest Ho Hne Hp).
    eexists. split; [reflexivity|].
    split; [now apply lookup_new_record|].
    split; [reflexivity|].
    intros k Hk. now apply lookup_new_record_other.
Qed.

Lemma C10_add_contact_appends_witness :
  let w := alice_book in
  let phone := lit "0987654321" in
  (forall o, lookup w (lit "Alice") = Some o ->
     exists w' o',
       add_contact [lit "Alice"; phone] w = (w', Ok (lit "Contact updated."))
       /\ lookup w' (lit "Alice") = Some o'
       /\ Record_.phones o' = Record_.phones o ++ [Field.init phone]
       /\ Record_.birthday o' = Record_.birthday o
       /\ Record_.name o' = Record_.name o
       /\ data w' = data w
       /\ (forall k, k <> lit "Alice" -> lookup w' k = lookup w k))
  /\ (lookup w (lit "Alice") = None -> lit "Alice" <> [] ->
      exists w',
        add_contact [lit "Alice"; phone] w = (w', Ok (lit "Contact added."))
        /\ lookup w' (lit "Alice") = Some (fresh_record (lit "Alice") [Field.init phone])
        /\ data w' = data w ++ [(lit "Alice", length (heap w))]
        /\ (forall k, k <> lit "Alice" -> lookup w' k = lookup w k)).
Proof.
  intros w phone.
  apply (C10_add_contact_appends w (lit "Alice") phone []).
  - apply run_invariant, empty_book_invariant.
  - vm_compute. reflexivity.
Defined.

(** A refused phone for a known name changes nothing. *)
Lemma add_contact_refused_known_unchanged w name phone rest o e :
  names_match_keys w ->
  lookup w name = Some o ->
  truthy phone = true ->
  Phone.init phone = Raise e ->
  add_contact (name :: phone :: rest) w =
  (w, Ok (lit "Give me name and phone please.")).
Proof.
  intros Hn Ho Ht Hp. unfold lookup in Ho.
  destruct (dict_get (data w) name) as [r|] eqn:Hr; [|discriminate].
  now apply (add_contact_known_invalid _ _ _ _ r o e).
Qed.

(** C3 (the code departs from the claim).  A failing operation is to leave
    the directory as it was.  [add_contact] with a new name and a refused
    phone answers with the error text, yet the book, empty before, now
    holds a record for "Bob" without any phone: the record is created and
    stored before the phone is checked. *)
Theorem C3_failed_add_contact_leaves_record :
  let w := empty_book [] (mkdate 2024 6 10) in
  Phone.init (lit "123")
    = Raise (ValueError (lit "Phone number must be exactly 10 digits."))
  /\ exists w',
      add_contact [lit "Bob"; lit "123"] w
        = (w', Ok (lit "Give me name and phone please."))
      /\ directory w = []
      /\ directory w' = [(lit "Bob", Some (fresh_record (lit "Bob") []))].
Proof.
  cbn zeta. split; [vm_compute; reflexivity|].
  eexists. split; [vm_compute; reflexivity|].
  split; vm_compute; reflexivity.
Qed.

(** ** Dates *)

Lemma date_new_inv y m d x :
  datetime.date_new y m d = Ok x -> x = mkdate y m d /\ valid_date x.
Proof.
  unfold datetime.date_new, datetime.MINYEAR, datetime.MAXYEAR.
  destruct ((1 <=? y) && (y <=? 9999)) eqn:Hy; cbn [negb]; [|discriminate].
  destruct ((1 <=? m) && (m <=? 12)) eqn:Hm; cbn [negb]; [|discriminate].
  destruct ((1 <=? d) && (d <=? datetime._days_in_month y m)) eqn:Hd;
    cbn [negb]; [|discriminate].
  intros [= <-]. split; [reflexivity|]. unfold valid_date. cbn.
  apply andb_prop in Hy as [? ?], Hm as [? ?], Hd as [? ?]. lia.
Qed.

Lemma date_new_valid x :
  valid_date x ->
  datetime.date_new (datetime.year x) (datetime.month x) (datetime.day x) = Ok x.
Proof.
  intros (Hy & Hm & Hd). unfold datetime.date_new, datetime.MINYEAR, datetime.MAXYEAR.
  replace ((1 <=? datetime.year x) && (datetime.year x <=? 9999)) with true
    by (symmetry; apply andb_true_intro; split; lia).
  replace ((1 <=? datetime.month x) && (datetime.month x <=? 12)) with true
    by (symmetry; apply andb_true_intro; split; lia).
  replace ((1 <=? datetime.day x) && (datetime.day x <=? _)) with true
    by (symmetry; apply andb_true_intro; split; lia).
  now destruct x.
Qed.

(** The constructor raises nothing but [ValueError]. *)
Lemma date_new_raises y m d e :
  datetime.date_new y m d = Raise e -> exists msg, e = ValueError msg.
Proof.
  unfold datetime.date_new.
  repeat (destruct (negb _); [intros [= <-]; eauto|]). discriminate.
Qed.

Lemma month_cases m :
  1 <= m <= 12 ->
  m = 1 \/ m = 2 \/ m = 3 \/ m = 4 \/ m = 5 \/ m = 6 \/ m = 7 \/ m = 8
  \/ m = 9 \/ m = 10 \/ m = 11 \/ m = 12.
Proof. lia. Qed.

(** The day number within its year is at most 365, or 366 in a leap
    year. *)
Lemma day_of_year_bound x :
  valid_date x ->
  1 <= datetime._days_before_month (datetime.year x) (datetime.month x)
       + datetime.day x
    <= 365 + Z.b2z (datetime._is_leap (datetime.year x)).
Proof.
  destruct x as [y m d]. unfold valid_date. cbn [datetime.year datetime.month datetime.day].
  intros (_ & Hm & Hd). revert Hd.
  unfold datetime._days_before_month, datetime._days_in_month.
  destruct (datetime._is_leap y);
    destruct (month_cases _ Hm) as
      [-> | [-> | [-> | [-> | [-> | [-> | [-> | [-> | [-> | [-> | [-> | ->]]]]]]]]]]];
    cbv -[Z.add Z.le Z.lt]; lia.
Qed.

(** The day number of a date lies between 1 and the one of 9999-12-31. *)
Lemma toordinal_bounds x :
  valid_date x -> 1 <= datetime.toordinal x <= datetime._MAXORDINAL.
Proof.
  intros Hv. pose proof (day_of_year_bound x Hv) as Hd.
  destruct Hv as (Hy & _ & _).
  unfold datetime.toordinal, datetime._ymd2ord, datetime._MAXORDINAL.
  set (doy := datetime._days_before_month _ _ + datetime.day x) in *.
  replace (datetime._days_before_year (datetime.year x)
           + datetime._days_before_month (datetime.year x) (datetime.month x)
           + datetime.day x)
    with (datetime._days_before_year (datetime.year x) + doy) by (unfold doy; lia).
  clearbody doy. revert Hd.
  unfold datetime._days_before_year, datetime._is_leap.
  set (y := datetime.year x) in *. clearbody y.
  destruct (y mod 4 =? 0) eqn:E4; cbn [andb];
    [destruct (y mod 100 =? 0) eqn:E100; cbn [negb orb];
       [destruct (y mod 400 =? 0) eqn:E400|]|];
    cbn [Z.b2z]; intros Hd;
    repeat match goal with
           | H : (_ =? _) = true |- _ => apply Z.eqb_eq in H
           | H : (_ =? _) = false |- _ => apply Z.eqb_neq in H
           end;
    Z.div_mod_to_equations; lia.
Qed.

(** The weekend shift never leaves the calendar. *)
Lemma adjust_for_weekend_ok x :
  valid_date x -> AddressBook._adjust_for_weekend x = Ok (weekend_shift x).
Proof.
  intros Hv. pose proof (toordinal_bounds x Hv) as Hb.
  unfold AddressBook._adjust_for_weekend, AddressBook._find_next_weekday,
    weekend_shift, datetime.add_days, datetime.weekday in *.
  unfold datetime._MAXORDINAL in *.
  set (o := datetime.toordinal x) in *. clearbody o.
  assert (Hw : 0 <= (o + 6) mod 7 < 7) by (apply Z.mod_pos_bound; lia).
  destruct (5 <=? (o + 6) mod 7) eqn:E5.
  - apply Z.leb_le in E5.
    destruct ((o + 6) mod 7 =? 5) eqn:Es.
    + apply Z.eqb_eq in Es.
      replace ((0 <? o + 2) && (o + 2 <=? 3652059)) with true; [reflexivity|].
      symmetry. apply andb_true_intro. split; [apply Z.ltb_lt | apply Z.leb_le];
        Z.div_mod_to_equations; lia.
    + apply Z.eqb_neq in Es.
      replace ((o + 6) mod 7 =? 6) with true by (symmetry; apply Z.eqb_eq; lia).
      replace ((0 <? o + 1) && (o + 1 <=? 3652059)) with true; [reflexivity|].
      symmetry. apply andb_true_intro. split; [apply Z.ltb_lt | apply Z.leb_le];
        Z.div_mod_to_equations; lia.
  - apply Z.leb_gt in E5.
    replace ((o + 6) mod 7 =? 5) with false by (symmetry; apply Z.eqb_neq; lia).
    replace ((o + 6) mod 7 =? 6) with false by (symmetry; apply Z.eqb_neq; lia).
    reflexivity.
Qed.

Lemma birthday_this_year_valid bd today d :
  AddressBook.birthday_this_year bd today = Ok d -> valid_date d.
Proof.
  unfold AddressBook.birthday_this_year, rbind, datetime.replace_year.
  destruct (datetime.date_new (datetime.year today) _ _) as [c|] eqn:E; [|discriminate].
  destruct (datetime.lt c today).
  - intros H. now apply date_new_inv in H.
  - intros [= <-]. now apply date_new_inv in E.
Qed.

(** ** One record in the loop *)

Lemma upcoming_of_no_birthday today days o :
  Record_.birthday o = None -> AddressBook.upcoming_of today days o = Ok [].
Proof. intros H. unfold AddressBook.upcoming_of. now rewrite H. Qed.

(** A record with a birthday: the loop parses it, builds the candidate
    date, and reports the record when the candidate, not yet shifted, is
    in the window. *)
Lemma upcoming_of_candidate today days o b bd d :
  Record_.birthday o = Some b ->
  datetime.strptime_dmY (Field.value b) = Ok bd ->
  AddressBook.birthday_this_year bd today = Ok d ->
  AddressBook.upcoming_of today days o =
  Ok (if in_window d today days then [entry_of o d] else []).
Proof.
  intros Hb Hp Hd. unfold AddressBook.upcoming_of. rewrite Hb, Hp. cbn [rbind].
  rewrite Hd. cbn [rbind]. fold (in_window d today days).
  destruct (in_window d today days); [|reflexivity].
  rewrite (adjust_for_weekend_ok d (birthday_this_year_valid _ _ _ Hd)).
  reflexivity.
Qed.

Lemma upcoming_of_ok today days o b items :
  Record_.birthday o = Some b ->
  AddressBook.upcoming_of today days o = Ok items ->
  exists bd d,
    datetime.strptime_dmY (Field.value b) = Ok bd
    /\ AddressBook.birthday_this_year bd today = Ok d
    /\ items = if in_window d today days then [entry_of o d] else [].
Proof.
  intros Hb H.
  destruct (datetime.strptime_dmY (Field.value b)) as [bd|e] eqn:Hp.
  - destruct (AddressBook.birthday_this_year bd today) as [d|e] eqn:Hd.
    + rewrite (upcoming_of_candidate _ _ _ _ _ _ Hb Hp Hd) in H.
      injection H as <-. eauto.
    + unfold AddressBook.upcoming_of in H. rewrite Hb, Hp in H. cbn [rbind] in H.
      rewrite Hd in H. discriminate.
  - unfold AddressBook.upcoming_of in H. rewrite Hb, Hp in H. discriminate.
Qed.

Lemma upcoming_of_names today days o items e :
  AddressBook.upcoming_of today days o = Ok items ->
  In e items -> entry_name e = Field.value (Record_.name o).
Proof.
  intros H Hin. destruct (Record_.birthday o) as [b|] eqn:Hb.
  - destruct (upcoming_of_ok _ _ _ _ _ Hb H) as (bd & d & _ & _ & ->).
    destruct (in_window d today days); [|destruct Hin].
    destruct Hin as [<- | []]. reflexivity.
  - rewrite (upcoming_of_no_birthday _ _ _ Hb) in H. injection H as <-.
    destruct Hin.
Qed.

(** ** Day numbers and dates *)

(** The month and the day that [_ord2ymd] finds for the offset [n] of a
    day within its year, checked for every offset it is used on. *)
Lemma month_estimate_table :
  forallb
    (fun i =>
       let n := Z.of_nat i in
       forallb
         (fun leapyear : bool =>
            let month := Z.shiftr (n + 50) 5 in
            let preceding :=
              datetime.index datetime._DAYS_BEFORE_MONTH month
              + Z.b2z ((2 <? month) && leapyear) in
            let '(month, preceding) :=
              if n <? preceding
              then (month - 1,
                    preceding - (datetime.index datetime._DAYS_IN_MONTH (month - 1)
                                 + Z.b2z ((month - 1 =? 2) && leapyear)))
              else (month, preceding) in
            (datetime.index datetime._DAYS_BEFORE_MONTH month
             + Z.b2z ((2 <? month) && leapyear) =? preceding)
            && (1 <=? month) && (month <=? 12)
            && (0 <=? n - preceding)
            && (n - preceding <? (if (month =? 2) && leapyear then 29
                                  else datetime.index datetime._DAYS_IN_MONTH month)))
         [true; false])
    (seq 0 365) = true.
Proof. vm_compute. reflexivity. Qed.

Lemma month_estimate n (leapyear : bool) :
  0 <= n < 365 ->
  let month := Z.shiftr (n + 50) 5 in
  let preceding :=
    datetime.index datetime._DAYS_BEFORE_MONTH month
    + Z.b2z ((2 <? month) && leapyear) in
  let mp :=
    if n <? preceding
    then (month - 1,
          preceding - (datetime.index datetime._DAYS_IN_MONTH (month - 1)
                       + Z.b2z ((month - 1 =? 2) && leapyear)))
    else (month, preceding) in
  datetime.index datetime._DAYS_BEFORE_MONTH (fst mp)
    + Z.b2z ((2 <? fst mp) && leapyear) = snd mp
  /\ 1 <= fst mp <= 12
  /\ 0 <= n - snd mp
     < (if (fst mp =? 2) && leapyear then 29
        else datetime.index datetime._DAYS_IN_MONTH (fst mp)).
Proof.
  intros Hn. pose proof month_estimate_table as T.
  rewrite forallb_forall in T.
  specialize (T (Z.to_nat n)).
  rewrite Z2Nat.id in T by lia.
  assert (Hin : In (Z.to_nat n) (seq 0 365)) by (apply in_seq; lia).
  specialize (T Hin). cbv zeta in T. rewrite forallb_forall in T.
  assert (Hl : In leapyear [true; false]) by (destruct leapyear; cbn; auto).
  specialize (T leapyear Hl). cbv zeta.
  destruct (n <? _); cbn [fst snd] in *;
    repeat (apply andb_prop in T as [T ?]);
    repeat match goal with
           | H : (_ =? _) = true |- _ => apply Z.eqb_eq in H
           | H : (_ <=? _) = true |- _ => apply Z.leb_le in H
           | H : (_ <? _) = true |- _ => apply Z.ltb_lt in H
           end; lia.
Qed.

(** The years of the Gregorian cycle: the days before the year that
    [_ord2ymd] finds, and whether it is a leap year. *)
Lemma year_of_ordinal n400 n100 n4 n1 :
  0 <= n400 -> 0 <= n100 <= 3 -> 0 <= n4 <= 24 -> 0 <= n1 <= 3 ->
  let year := n400 * 400 + 1 + n100 * 100 + n4 * 4 + n1 in
  datetime._days_before_year year
    = n400 * 146097 + n100 * 36524 + n4 * 1461 + n1 * 365
  /\ datetime._is_leap year = (n1 =? 3) && (negb (n4 =? 24) || (n100 =? 3)).
Proof.
  intros H400 H100 H4 H1 year. subst year. split.
  - unfold datetime._days_before_year. cbv zeta.
    Z.div_mod_to_equations. lia.
  - unfold datetime._is_leap.
    destruct (n1 =? 3) eqn:E1; destruct (n4 =? 24) eqn:E4;
      destruct (n100 =? 3) eqn:E100; cbn [andb orb negb];
      repeat match goal with
             | H : (_ =? _) = true |- _ => apply Z.eqb_eq in H
             | H : (_ =? _) = false |- _ => apply Z.eqb_neq in H
             end;
      repeat match goal with
             | |- context [?a mod ?b =? 0] =>
                 let E := fresh "E" in
                 destruct (a mod b =? 0) eqn:E;
                 [apply Z.eqb_eq in E | apply Z.eqb_neq in E]
             end;
      cbn [andb orb negb]; try reflexivity; exfalso;
      Z.div_mod_to_equations; lia.
Qed.

(** [fromordinal] is the inverse of [toordinal]: the date found for a day
    number has that day number, and is a date of the calendar. *)
Lemma fromordinal_toordinal n :
  1 <= n ->
  datetime.toordinal (datetime.fromordinal n) = n
  /\ 1 <= datetime.month (datetime.fromordinal n) <= 12
  /\ 1 <= datetime.day (datetime.fromordinal n)
       <= datetime._days_in_month (datetime.year (datetime.fromordinal n))
            (datetime.month (datetime.fromordinal n)).
Proof.
  intros Hn. unfold datetime.fromordinal, datetime._ord2ymd.
  change datetime._DI400Y with 146097.
  change datetime._DI100Y with 36524.
  change datetime._DI4Y with 1461.
  cbv zeta.
  set (n0 := n - 1).
  set (n400 := n0 / 146097). set (r400 := n0 mod 146097).
  set (n100 := r400 / 36524). set (r100 := r400 mod 36524).
  set (n4 := r100 / 1461). set (r4 := r100 mod 1461).
  set (n1 := r4 / 365). set (r1 := r4 mod 365).
  assert (H0 : 0 <= n0) by (unfold n0; lia).
  assert (E400 : n0 = 146097 * n400 + r400 /\ 0 <= r400 < 146097 /\ 0 <= n400)
    by (unfold n400, r400; Z.div_mod_to_equations; lia).
  assert (E100 : r400 = 36524 * n100 + r100 /\ 0 <= r100 < 36524 /\ 0 <= n100 <= 4)
    by (unfold n100, r100; Z.div_mod_to_equations; lia).
  assert (E4 : r100 = 1461 * n4 + r4 /\ 0 <= r4 < 1461 /\ 0 <= n4 <= 24)
    by (unfold n4, r4; Z.div_mod_to_equations; lia).
  assert (E1 : r4 = 365 * n1 + r1 /\ 0 <= r1 < 365 /\ 0 <= n1 <= 4)
    by (unfold n1, r1; Z.div_mod_to_equations; lia).
  clearbody n400 r400 n100 r100 n4 r4 n1 r1.
  assert (Hn0 : n = n0 + 1) by (unfold n0; lia). clearbody n0.
  destruct ((n1 =? 4) || (n100 =? 4)) eqn:E.
  - (* the last day of a cycle of four or of four hundred years *)
    unfold datetime.toordinal, datetime._ymd2ord, datetime._days_before_month,
      datetime._days_in_month.
    cbn [datetime.year datetime.month datetime.day].
    change (datetime.index datetime._DAYS_BEFORE_MONTH 12) with 334.
    change (datetime.index datetime._DAYS_IN_MONTH 12) with 31.
    change (2 <? 12) with true. change (12 =? 2) with false. cbn [andb].
    apply orb_prop in E as [E | E]; apply Z.eqb_eq in E.
    + assert (n100 <= 3) by lia. assert (n4 <= 23) by lia.
      destruct (year_of_ordinal n400 n100 n4 3) as [Hd Hl]; try lia.
      cbv zeta in Hd, Hl.
      replace (n400 * 400 + 1 + n100 * 100 + n4 * 4 + n1 - 1)
        with (n400 * 400 + 1 + n100 * 100 + n4 * 4 + 3) by lia.
      rewrite Hd, Hl.
      replace (n4 =? 24) with false by (symmetry; apply Z.eqb_neq; lia).
      cbn. lia.
    + destruct (year_of_ordinal n400 3 24 3) as [Hd Hl]; try lia.
      cbv zeta in Hd, Hl.
      replace (n400 * 400 + 1 + n100 * 100 + n4 * 4 + n1 - 1)
        with (n400 * 400 + 1 + 3 * 100 + 24 * 4 + 3) by lia.
      rewrite Hd, Hl. cbn. lia.
  - apply orb_false_elim in E as [En1 En100]. apply Z.eqb_neq in En1, En100.
    destruct (year_of_ordinal n400 n100 n4 n1) as [Hd Hl]; try lia.
    cbv zeta in Hd, Hl.
    pose proof (month_estimate r1
                  ((n1 =? 3) && (negb (n4 =? 24) || (n100 =? 3)))) as Hm.
    cbv zeta in Hm. specialize (Hm ltac:(lia)).
    destruct (if r1 <? _ then _ else _) as [month preceding].
    cbn [fst snd] in Hm. destruct Hm as (Hp & Hmonth & Hday).
    unfold datetime.toordinal, datetime._ymd2ord, datetime._days_before_month,
      datetime._days_in_month.
    cbn [datetime.year datetime.month datetime.day].
    rewrite Hd, Hl, Hp. lia.
Qed.

Lemma fromordinal_valid n :
  1 <= n <= datetime._MAXORDINAL -> valid_date (datetime.fromordinal n).
Proof.
  intros [Hlo Hhi]. destruct (fromordinal_toordinal n Hlo) as (Ho & Hm & Hd).
  split; [|split; assumption].
  (* the year: from the day number, which grows with the year *)
  unfold datetime.toordinal, datetime._ymd2ord in Ho.
  set (x := datetime.fromordinal n) in *.
  assert (Hdoy : 1 <= datetime._days_before_month (datetime.year x) (datetime.month x)
                      + datetime.day x <= 366).
  { revert Hd. unfold datetime._days_before_month, datetime._days_in_month.
    destruct (datetime._is_leap (datetime.year x));
      destruct (month_cases _ Hm) as
        [-> | [-> | [-> | [-> | [-> | [-> | [-> | [-> | [-> | [-> | [-> | ->]]]]]]]]]]];
      cbv -[Z.add Z.le Z.lt datetime.day x]; lia. }
  unfold datetime._MAXORDINAL in Hhi.
  unfold datetime._days_before_year in Ho. cbv zeta in Ho.
  Z.div_mod_to_equations. lia.
Qed.

(** The weekend shift in day numbers: a Saturday moves two days on and a
    Sunday one day on, both to the Monday; other days stay. *)
Lemma weekend_shift_days d :
  valid_date d ->
  valid_date (weekend_shift d)
  /\ datetime.toordinal (weekend_shift d)
     = datetime.toordinal d
       + (if datetime.weekday d =? 5 then 2
          else if datetime.weekday d =? 6 then 1 else 0)
  /\ (5 <= datetime.weekday d -> datetime.weekday (weekend_shift d) = 0)
  /\ (datetime.weekday d < 5 -> weekend_shift d = d).
Proof.
  intros Hv. pose proof (toordinal_bounds d Hv) as Hb.
  unfold weekend_shift, datetime.weekday. unfold datetime._MAXORDINAL in Hb.
  set (o := datetime.toordinal d) in *.
  assert (Hw : 0 <= (o + 6) mod 7 < 7) by (apply Z.mod_pos_bound; lia).
  destruct ((o + 6) mod 7 =? 5) eqn:E5.
  - apply Z.eqb_eq in E5.
    assert (Hr : 1 <= o + 2 <= datetime._MAXORDINAL)
      by (unfold datetime._MAXORDINAL; Z.div_mod_to_equations; lia).
    destruct (fromordinal_toordinal (o + 2)) as (Ho & _); [lia|].
    split; [now apply fromordinal_valid|]. split; [exact Ho|].
    split; [|lia]. intros _. unfold datetime.weekday. rewrite Ho.
    Z.div_mod_to_equations; lia.
  - apply Z.eqb_neq in E5. destruct ((o + 6) mod 7 =? 6) eqn:E6.
    + apply Z.eqb_eq in E6.
      assert (Hr : 1 <= o + 1 <= datetime._MAXORDINAL)
        by (unfold datetime._MAXORDINAL; Z.div_mod_to_equations; lia).
      destruct (fromordinal_toordinal (o + 1)) as (Ho & _); [lia|].
      split; [now apply fromordinal_valid|]. split; [exact Ho|].
      split; [|lia]. intros _. unfold datetime.weekday. rewrite Ho.
      Z.div_mod_to_equations; lia.
    + apply Z.eqb_neq in E6.
      split; [exact Hv|]. split; [fold o; lia|]. split; [lia | reflexivity].
Qed.

(** ** The query as a function of the directory *)

Lemma upcoming_loop_eq today days refs acc w :
  AddressBook.upcoming_loop today days refs acc w =
  (w, upcoming_from today days (map (fun r => heap w !! r) refs) acc).
Proof.
  revert acc. induction refs as [|r refs IH]; intros acc; [reflexivity|].
  cbn [AddressBook.upcoming_loop map upcoming_from].
  unfold bind at 1, deref.
  destruct (heap w !! r) as [o|]; [|reflexivity].
  unfold bind at 1, lift.
  destruct (AddressBook.upcoming_of today days o) as [items|e]; [|reflexivity].
  apply IH.
Qed.

Lemma get_upcoming_birthdays_eq days w :
  AddressBook.get_upcoming_birthdays days w =
  (w, upcoming_from (clock w) days (map snd (directory w)) []).
Proof.
  unfold AddressBook.get_upcoming_birthdays, bind, date_today, get.
  rewrite upcoming_loop_eq. unfold directory, dict_values.
  now rewrite !map_map.
Qed.

Section Loop.

Variables (today : datetime.date) (days : Z) (h : list Record_.t).

Local Abbreviation records d := (map (fun kr : str * ref => h !! snd kr) d).

(** When the loop ends normally every record was read and handled
    without a raise, and the answer is made of their items. *)
Lemma upcoming_from_In (d : dict ref) acc out :
  upcoming_from today days (records d) acc = Ok out ->
  (forall k r, In (k, r) d ->
     exists o items, h !! r = Some o
                     /\ AddressBook.upcoming_of today days o = Ok items)
  /\ (forall e, In e out <->
        In e acc
        \/ exists k r o items,
             In (k, r) d /\ h !! r = Some o
             /\ AddressBook.upcoming_of today days o = Ok items /\ In e items).
Proof.
  revert acc. induction d as [|[k0 r0] d IH]; intros acc; cbn.
  - intros [= <-]. split; [intros ? ? []|].
    intros e. split; [auto|]. intros [H | (? & ? & ? & ? & [] & _)]. exact H.
  - destruct (h !! r0) as [o0|] eqn:Ho; [|discriminate].
    destruct (AddressBook.upcoming_of today days o0) as [items0|] eqn:Hi; [|discriminate].
    intros H. destruct (IH _ H) as [IH1 IH2]. split.
    + intros k r [[= -> ->] | Hin]; [eauto | now apply (IH1 k)].
    + intros e. rewrite IH2, in_app_iff. split.
      * intros [[H1 | H1] | (k & r & o & items & Hin & Hr & Hu & He)].
        -- now left.
        -- right. exists k0, r0, o0, items0. auto.
        -- right. exists k, r, o, items. auto.
      * intros [H1 | (k & r & o & items & [[= -> ->] | Hin] & Hr & Hu & He)].
        -- auto.
        -- left. right. congruence.
        -- right. exists k, r, o, items. auto.
Qed.

(** When a record of the directory makes the loop body raise, the loop
    raises: with the exception of the first record that does. *)
Lemma upcoming_from_raises (d : dict ref) acc k r o e :
  (forall k r, In (k, r) d -> exists o, h !! r = Some o) ->
  In (k, r) d -> h !! r = Some o ->
  AddressBook.upcoming_of today days o = Raise e ->
  exists k' r' o' e',
    In (k', r') d /\ h !! r' = Some o'
    /\ AddressBook.upcoming_of today days o' = Raise e'
    /\ upcoming_from today days (records d) acc = Raise e'.
Proof.
  revert acc. induction d as [|[k0 r0] d IH]; intros acc Hv Hin Ho He; [destruct Hin|].
  cbn. destruct (Hv k0 r0 (or_introl eq_refl)) as [o0 Ho0]. rewrite Ho0.
  destruct (AddressBook.upcoming_of today days o0) as [items0|e0] eqn:Hi.
  - destruct Hin as [[= -> ->] | Hin]; [congruence|].
    destruct (IH (acc ++ items0) (fun k r H => Hv k r (or_intror H)) Hin Ho He)
      as (k' & r' & o' & e' & H1 & H2 & H3 & H4).
    exists k', r', o', e'. auto.
  - exists k0, r0, o0, e0. auto.
Qed.

End Loop.

(** What the answer holds for one key of the directory. *)
Lemma query_record w w' days out k r o :
  invariant w ->
  AddressBook.get_upcoming_birthdays days w = (w', Ok out) ->
  In (k, r) (data w) -> heap w !! r = Some o ->
  exists items,
    AddressBook.upcoming_of (clock w) days o = Ok items
    /\ forall e, (In e out /\ entry_name e = k) <-> In e items.
Proof.
  intros [Hn Hk] H Hin Ho. rewrite get_upcoming_birthdays_eq in H.
  injection H as _ H. unfold directory in H. rewrite map_map in H. cbn [snd] in H.
  apply upcoming_from_In in H as [H1 H2].
  destruct (H1 k r Hin) as (o1 & items & Ho1 & Hu).
  assert (o1 = o) by congruence. subst o1.
  exists items. split; [exact Hu|].
  destruct (Hn k r Hin) as (o2 & Ho2 & Hname).
  assert (o2 = o) by congruence. subst o2.
  intros e. split.
  - intros [He Hek]. apply H2 in He as [[] | (k' & r' & o' & items' & Hin' & Ho' & Hu' & He')].
    destruct (Hn k' r' Hin') as (o3 & Ho3 & Hname').
    assert (o3 = o') by congruence. subst o3.
    rewrite (upcoming_of_names _ _ _ _ _ Hu' He') in Hek.
    assert (k' = k) by congruence. subst k'.
    assert (r' = r).
    { apply (In_dict_get _ _ _ Hk) in Hin, Hin'. congruence. }
    subst r'. congruence.
  - intros He. split.
    + apply H2. right. exists k, r, o, items. auto.
    + rewrite (upcoming_of_names _ _ _ _ _ Hu He). exact Hname.
Qed.

(** The answer for a key whose record has a birthday: the candidate date
    is built, the key is reported when the candidate is in the window,
    and the date reported is the candidate after the weekend shift. *)
Lemma query_birthday w w' days out k r o b :
  invariant w ->
  AddressBook.get_upcoming_birthdays days w = (w', Ok out) ->
  In (k, r) (data w) -> heap w !! r = Some o ->
  Record_.birthday o = Some b ->
  exists bd d,
    datetime.strptime_dmY (Field.value b) = Ok bd
    /\ AddressBook.birthday_this_year bd (clock w) = Ok d
    /\ forall e, (In e out /\ entry_name e = k) <->
                 (in_window d (clock w) days = true
                  /\ e = {| entry_name := k;
                            entry_birthday := datetime.strftime_Ymd (weekend_shift d) |}).
Proof.
  intros Hinv H Hin Ho Hb.
  destruct (query_record _ _ _ _ _ _ _ Hinv H Hin Ho) as (items & Hu & Hitems).
  destruct (upcoming_of_ok _ _ _ _ _ Hb Hu) as (bd & d & Hp & Hd & ->).
  exists bd, d. split; [exact Hp|]. split; [exact Hd|].
  destruct Hinv as [Hn _]. destruct (Hn k r Hin) as (o2 & Ho2 & Hname).
  assert (o2 = o) by congruence. subst o2.
  intros e. rewrite Hitems. unfold entry_of. rewrite Hname.
  destruct (in_window d (clock w) days); cbn.
  - split; [intros [<- | []]; auto | intros [_ ->]; auto].
  - split; [intros [] | intros [? _]; discriminate].
Qed.

Lemma in_window_spec d today days :
  in_window d today days = true <-> 0 <= datetime.sub_days d today <= days.
Proof.
  unfold in_window. rewrite andb_true_iff, !Z.leb_le. tauto.
Qed.

(** ** The upcoming birthdays *)

(** C1.  Suppose the query returns.  For every record of the directory
    with a birthday, the candidate date [d] was built, and the record is
    in the answer if and only if [0 <= (d - today).days <= days] for that
    unshifted [d]; the date reported is [d] shifted off the weekend, as
    year-month-day text, and the shifted date is two days after [d] for a
    Saturday, one day after [d] for a Sunday, and [d] itself otherwise.  With today 2024-06-10 and the birthday
    15.06.1990 (a Saturday in 2024, five days ahead) the record is
    reported with the date 2024-06-17. *)
Theorem C1_inclusion_by_unshifted_candidate
  (w w' : World) (days : Z) (out : list entry)
  (k : str) (r : ref) (o : Record_.t) (b : Birthday.t) :
  invariant w ->
  AddressBook.get_upcoming_birthdays days w = (w', Ok out) ->
  In (k, r) (data w) -> heap w !! r = Some o ->
  Record_.birthday o = Some b ->
  (exists bd d,
     datetime.strptime_dmY (Field.value b) = Ok bd
     /\ AddressBook.birthday_this_year bd (clock w) = Ok d
     /\ ((exists e, In e out /\ entry_name e = k)
         <-> 0 <= datetime.sub_days d (clock w) <= days)
     /\ (forall e, In e out -> entry_name e = k ->
           entry_birthday e = datetime.strftime_Ymd (weekend_shift d))
     /\ datetime.toordinal (weekend_shift d)
        = datetime.toordinal d
          + (if datetime.weekday d =? 5 then 2
             else if datetime.weekday d =? 6 then 1 else 0))
  /\ (clock w = mkdate 2024 6 10 -> Field.value b = lit "15.06.1990" ->
      5 <= days ->
      In {| entry_name := k; entry_birthday := lit "2024-06-17" |} out).
Proof.
  intros Hinv H Hin Ho Hb.
  destruct (query_birthday _ _ _ _ _ _ _ _ Hinv H Hin Ho Hb)
    as (bd & d & Hp & Hd & Hout).
  split.
  - exists bd, d. split; [exact Hp|]. split; [exact Hd|]. split.
    + rewrite <- in_window_spec. split.
      * intros (e & He). now apply Hout in He.
      * intros Hw. eexists. apply Hout. split; [exact Hw | reflexivity].
    + split.
      * intros e He Hk.
        destruct (proj1 (Hout e) (conj He Hk)) as [_ ->]. reflexivity.
      * apply weekend_shift_days. now apply birthday_this_year_valid in Hd.
  - intros Hc Hv Hdays. rewrite Hv in Hp. rewrite Hc in Hd.
    assert (bd = mkdate 1990 6 15) as ->.
    { vm_compute in Hp. now injection Hp as <-. }
    assert (d = mkdate 2024 6 15) as ->.
    { vm_compute in Hd. now injection Hd as <-. }
    apply (Hout {| entry_name := k; entry_birthday := lit "2024-06-17" |}).
    split.
    + rewrite Hc. apply in_window_spec.
      change (datetime.sub_days (mkdate 2024 6 15) (mkdate 2024 6 10)) with 5. lia.
    + reflexivity.
Qed.

Lemma alice_book_query :
  AddressBook.get_upcoming_birthdays 7 alice_book
  = (alice_book,
     Ok [ {| entry_name := lit "Alice"; entry_birthday := lit "2024-06-17" |} ]).
Proof. vm_compute. reflexivity. Qed.

Lemma C1_inclusion_by_unshifted_candidate_witness :
  let w := alice_book in
  let out := [ {| entry_name := lit "Alice"; entry_birthday := lit "2024-06-17" |} ] in
  (exists bd d,
     datetime.strptime_dmY (lit "15.06.1990") = Ok bd
     /\ AddressBook.birthday_this_year bd (clock w) = Ok d
     /\ ((exists e, In e out /\ entry_name e = lit "Alice")
         <-> 0 <= datetime.sub_days d (clock w) <= 7)
     /\ (forall e, In e out -> entry_name e = lit "Alice" ->
           entry_birthday e = datetime.strftime_Ymd (weekend_shift d))
     /\ datetime.toordinal (weekend_shift d)
        = datetime.toordinal d
          + (if datetime.weekday d =? 5 then 2
             else if datetime.weekday d =? 6 then 1 else 0))
  /\ (clock w = mkdate 2024 6 10 -> lit "15.06.1990" = lit "15.06.1990" ->
      5 <= 7 ->
      In {| entry_name := lit "Alice"; entry_birthday := lit "2024-06-17" |} out).
Proof.
  intros w out.
  apply (C1_inclusion_by_unshifted_candidate w w 7 out (lit "Alice") 0%nat
           (Record_.set_birthday (Some (Field.init (lit "15.06.1990")))
              (fresh_record (lit "Alice") [Field.init (lit "1234567890")]))
           (Field.init (lit "15.06.1990"))).
  - apply run_invariant, empty_book_invariant.
  - apply alice_book_query.
  - vm_compute. left. reflexivity.
  - vm_compute. reflexivity.
  - reflexivity.
Defined.

(** C5.  Suppose the query returns.  For every record of the directory
    with a birthday read as [bd], the date of [bd]'s month and day in
    today's year exists; the candidate is that date unless it lies before
    today, and then it is the date of the same month and day in the year
    after today's.  The record is reported on that candidate.  With today
    2024-12-28, horizon 7 and the birthday 02.01.1985 the record is
    reported with the date 2025-01-02. *)
Theorem C5_candidate_rolls_over_to_next_year
  (w w' : World) (days : Z) (out : list entry)
  (k : str) (r : ref) (o : Record_.t) (b : Birthday.t) :
  invariant w ->
  AddressBook.get_upcoming_birthdays days w = (w', Ok out) ->
  In (k, r) (data w) -> heap w !! r = Some o ->
  Record_.birthday o = Some b ->
  (exists bd this_year d,
     datetime.strptime_dmY (Field.value b) = Ok bd
     /\ datetime.date_new (datetime.year (clock w)) (datetime.month bd)
          (datetime.day bd) = Ok this_year
     /\ (datetime.lt this_year (clock w) = false -> d = this_year)
     /\ (datetime.lt this_year (clock w) = true ->
         datetime.date_new (datetime.year (clock w) + 1) (datetime.month bd)
           (datetime.day bd) = Ok d)
     /\ (forall e, (In e out /\ entry_name e = k) <->
           (in_window d (clock w) days = true
            /\ e = {| entry_name := k;
                      entry_birthday := datetime.strftime_Ymd (weekend_shift d) |})))
  /\ (clock w = mkdate 2024 12 28 -> Field.value b = lit "02.01.1985" ->
      days = 7 ->
      In {| entry_name := k; entry_birthday := lit "2025-01-02" |} out).
Proof.
  intros Hinv H Hin Ho Hb.
  destruct (query_birthday _ _ _ _ _ _ _ _ Hinv H Hin Ho Hb)
    as (bd & d & Hp & Hd & Hout).
  split.
  - pose proof Hd as Hd'.
    unfold AddressBook.birthday_this_year, rbind, datetime.replace_year in Hd'.
    destruct (datetime.date_new (datetime.year (clock w)) _ _) as [c|] eqn:Hc;
      [|discriminate].
    exists bd, c, d. split; [exact Hp|]. split; [exact Hc|].
    destruct (datetime.lt c (clock w)).
    + split; [discriminate|]. split; [intros _; exact Hd' | exact Hout].
    + split; [intros _; congruence|]. split; [discriminate | exact Hout].
  - intros Hc Hv ->. rewrite Hv in Hp. rewrite Hc in Hd.
    assert (bd = mkdate 1985 1 2) as ->.
    { vm_compute in Hp. now injection Hp as <-. }
    assert (d = mkdate 2025 1 2) as ->.
    { vm_compute in Hd. now injection Hd as <-. }
    apply (Hout {| entry_name := k; entry_birthday := lit "2025-01-02" |}).
    split; [rewrite Hc|]; reflexivity.
Qed.

Lemma carol_book_query :
  AddressBook.get_upcoming_birthdays 7 carol_book
  = (carol_book,
     Ok [ {| entry_name := lit "Carol"; entry_birthday := lit "2025-01-02" |} ]).
Proof. vm_compute. reflexivity. Qed.

Lemma C5_candidate_rolls_over_to_next_year_witness :
  let w := carol_book in
  let out := [ {| entry_name := lit "Carol"; entry_birthday := lit "2025-01-02" |} ] in
  (exists bd this_year d,
     datetime.strptime_dmY (lit "02.01.1985") = Ok bd
     /\ datetime.date_new (datetime.year (clock w)) (datetime.month bd)
          (datetime.day bd) = Ok this_year
     /\ (datetime.lt this_year (clock w) = false -> d = this_year)
     /\ (datetime.lt this_year (clock w) = true ->
         datetime.date_new (datetime.year (clock w) + 1) (datetime.month bd)
           (datetime.day bd) = Ok d)
     /\ (forall e, (In e out /\ entry_name e = lit "Carol") <->
           (in_window d (clock w) 7 = true
            /\ e = {| entry_name := lit "Carol";
                      entry_birthday := datetime.strftime_Ymd (weekend_shift d) |})))
  /\ (clock w = mkdate 2024 12 28 -> lit "02.01.1985" = lit "02.01.1985" ->
      7 = 7 ->
      In {| entry_name := lit "Carol"; entry_birthday := lit "2025-01-02" |} out).
Proof.
  intros w out.
  apply (C5_candidate_rolls_over_to_next_year w w 7 out (lit "Carol") 0%nat
           (Record_.set_birthday (Some (Field.init (lit "02.01.1985")))
              (fresh_record (lit "Carol") [Field.init (lit "1234567890")]))
           (Field.init (lit "02.01.1985"))).
  - apply run_invariant, empty_book_invariant.
  - apply carol_book_query.
  - vm_compute. left. reflexivity.
  - vm_compute. reflexivity.
  - reflexivity.
Defined.

(** A leap day cannot be moved into a year that is not a leap year. *)
Lemma leap_day_raises bd today :
  datetime.month bd = 2 -> datetime.day bd = 29 ->
  datetime._is_leap (datetime.year today) = false ->
  exists msg, AddressBook.birthday_this_year bd today = Raise (ValueError msg).
Proof.
  intros Hm Hd Hl.
  unfold AddressBook.birthday_this_year, rbind, datetime.replace_year.
  destruct (datetime.date_new (datetime.year today) _ _) as [c|e] eqn:E.
  - exfalso. apply date_new_inv in E as [-> (_ & _ & H)].
    unfold mkdate in H. cbn [datetime.year datetime.month datetime.day] in H.
    unfold datetime._days_in_month in H. rewrite Hm, Hd, Hl in H.
    change (if (2 =? 2) && false then 29
            else datetime.index datetime._DAYS_IN_MONTH 2) with 28 in H.
    lia.
  - destruct (date_new_raises _ _ _ _ E) as [msg ->]. eauto.
Qed.

Lemma birthday_this_year_raises bd today e :
  AddressBook.birthday_this_year bd today = Raise e -> exists msg, e = ValueError msg.
Proof.
  unfold AddressBook.birthday_this_year, rbind, datetime.replace_year.
  destruct (datetime.date_new (datetime.year today) _ _) as [c|e0] eqn:E.
  - destruct (datetime.lt c today); [|discriminate].
    now apply date_new_raises.
  - intros [= <-]. now apply date_new_raises in E.
Qed.

(** C6.  In a directory holding a record whose birthday is a 29th of
    February, with today in a year that is not a leap year, the query does
    not return: it raises the [ValueError] of a [date] that could not be
    built as the candidate of a record of the directory (the first record,
    in the order of the book, whose candidate cannot be built), and leaves
    the world as it was. *)
Theorem C6_leap_day_birthday_raises
  (w : World) (days : Z) (k : str) (r : ref) (o : Record_.t)
  (b : Birthday.t) (bd : datetime.date) :
  names_match_keys w -> birthdays_valid w ->
  In (k, r) (data w) -> heap w !! r = Some o ->
  Record_.birthday o = Some b ->
  datetime.strptime_dmY (Field.value b) = Ok bd ->
  datetime.month bd = 2 -> datetime.day bd = 29 ->
  datetime._is_leap (datetime.year (clock w)) = false ->
  exists msg,
    AddressBook.get_upcoming_birthdays days w = (w, Raise (ValueError msg))
    /\ exists k' r' o' b' bd',
         In (k', r') (data w) /\ heap w !! r' = Some o'
         /\ Record_.birthday o' = Some b'
         /\ datetime.strptime_dmY (Field.value b') = Ok bd'
         /\ AddressBook.birthday_this_year bd' (clock w) = Raise (ValueError msg).
Proof.
  intros Hn Hbv Hin Ho Hb Hp Hm Hd Hl.
  destruct (leap_day_raises bd (clock w) Hm Hd Hl) as [msg0 Hr].
  assert (Hu : AddressBook.upcoming_of (clock w) days o = Raise (ValueError msg0)).
  { unfold AddressBook.upcoming_of. rewrite Hb, Hp. cbn [rbind]. now rewrite Hr. }
  rewrite get_upcoming_birthdays_eq. unfold directory. rewrite map_map. cbn [snd].
  assert (Hv : forall k r, In (k, r) (data w) -> exists o, heap w !! r = Some o).
  { intros k0 r0 H0. destruct (Hn k0 r0 H0) as (o0 & H1 & _). eauto. }
  destruct (upcoming_from_raises (clock w) days (heap w) (data w) [] k r o _
              Hv Hin Ho Hu)
    as (k' & r' & o' & e' & Hin' & Ho' & Hu' & Hres).
  destruct (Record_.birthday o') as [b'|] eqn:Hb';
    [|rewrite (upcoming_of_no_birthday _ _ _ Hb') in Hu'; discriminate].
  assert (Hok : birthday_ok o').
  { apply Hbv, list_elem_of_In. now apply list_elem_of_lookup_2 in Ho'. }
  destruct (Hok b' Hb') as [bd' Hp'].
  destruct (AddressBook.birthday_this_year bd' (clock w)) as [d'|e''] eqn:Hd'.
  - rewrite (upcoming_of_candidate _ _ _ _ _ _ Hb' Hp' Hd') in Hu'. discriminate.
  - assert (e' = e'').
    { unfold AddressBook.upcoming_of in Hu'. rewrite Hb', Hp' in Hu'.
      cbn [rbind] in Hu'. rewrite Hd' in Hu'. now injection Hu'. }
    subst e''. destruct (birthday_this_year_raises _ _ _ Hd') as [msg ->].
    exists msg. split; [now rewrite Hres|].
    exists k', r', o', b', bd'. auto.
Qed.

Lemma C6_leap_day_birthday_raises_witness :
  exists msg,
    AddressBook.get_upcoming_birthdays 7 dan_book = (dan_book, Raise (ValueError msg))
    /\ exists k' r' o' b' bd',
         In (k', r') (data dan_book) /\ heap dan_book !! r' = Some o'
         /\ Record_.birthday o' = Some b'
         /\ datetime.strptime_dmY (Field.value b') = Ok bd'
         /\ AddressBook.birthday_this_year bd' (clock dan_book)
            = Raise (ValueError msg).
Proof.
  apply (C6_leap_day_birthday_raises dan_book 7 (lit "Dan") 0%nat
           (Record_.set_birthday (Some (Field.init (lit "29.02.2000")))
              (fresh_record (lit "Dan") [Field.init (lit "1234567890")]))
           (Field.init (lit "29.02.2000")) (mkdate 2000 2 29)).
  - apply run_invariant, empty_book_invariant.
  - apply run_birthdays_valid. intros o [].
  - vm_compute. left. reflexivity.
  - vm_compute. reflexivity.
  - reflexivity.
  - vm_compute. reflexivity.
  - reflexivity.
  - reflexivity.
  - vm_compute. reflexivity.
Defined.

(** What the query raises there. *)
Lemma dan_book_query :
  AddressBook.get_upcoming_birthdays 7 dan_book
  = (dan_book, Raise (ValueError (lit "day is out of range for month"))).
Proof. vm_compute. reflexivity. Qed.

(** C7 (as amended).  The query takes the horizon [days] from its
    caller and today from the clock of the world ([date.today()]); it
    changes nothing, and its answer is a function of the directory (the
    keys in order with their records), of the date the clock shows and of
    [days]: two worlds that agree on the directory and on the clock get
    the same answer. *)
Theorem C7_answer_from_directory_clock_and_horizon (days : Z) (w1 w2 : World) :
  directory w1 = directory w2 ->
  clock w1 = clock w2 ->
  AddressBook.get_upcoming_birthdays days w1
    = (w1, upcoming_from (clock w1) days (map snd (directory w1)) [])
  /\ snd (AddressBook.get_upcoming_birthdays days w1)
     = snd (AddressBook.get_upcoming_birthdays days w2).
Proof.
  intros Hd Hc. rewrite !get_upcoming_birthdays_eq. cbn [snd].
  now rewrite Hd, Hc.
Qed.

Lemma C7_answer_from_directory_clock_and_horizon_witness :
  let w1 := alice_book in
  let w2 := step (OpNew (lit "Zed") None) alice_book in
  AddressBook.get_upcoming_birthdays 7 w1
    = (w1, upcoming_from (clock w1) 7 (map snd (directory w1)) [])
  /\ snd (AddressBook.get_upcoming_birthdays 7 w1)
     = snd (AddressBook.get_upcoming_birthdays 7 w2).
Proof.
  intros w1 w2.
  apply (C7_answer_from_directory_clock_and_horizon 7 w1 w2).
  - vm_compute. reflexivity.
  - vm_compute. reflexivity.
Defined.

(** C7 as it was stated fails: today is not an input of the query.  The
    same directory queried with the same horizon gives two answers when
    the clock of the environment shows two dates. *)
Lemma C7_counterexample :
  let w1 := alice_book in
  let w2 := {| heap := heap alice_book; data := data alice_book;
               clock := mkdate 2024 1 1 |} in
  directory w1 = directory w2
  /\ snd (AddressBook.get_upcoming_birthdays 7 w1)
     = Ok [ {| entry_name := lit "Alice"; entry_birthday := lit "2024-06-17" |} ]
  /\ snd (AddressBook.get_upcoming_birthdays 7 w2) = Ok []
  /\ snd (AddressBook.get_upcoming_birthdays 7 w1)
     <> snd (AddressBook.get_upcoming_birthdays 7 w2).
Proof.
  cbn zeta. split; [reflexivity|].
  split; [vm_compute; reflexivity|].
  split; [vm_compute; reflexivity|].
  vm_compute. discriminate.
Qed.

(** * Further properties of the code *)

(** ** Validators *)

Lemma Phone_init_shape (s : str) :
  Phone.init s =
  if ten_digits_opt_newline s then Ok (Field.init s)
  else Raise (ValueError (lit "Phone number must be exactly 10 digits.")).
Proof.
  unfold ten_digits_opt_newline.
  destruct (Phone_init_rejects s) as [H | H]; rewrite H.
  - destruct (forallb re_digit (take 10 s)) eqn:Hd; [|reflexivity].
    cbn [andb].
    destruct ((length s =? 10)%nat
              || (length s =? 11)%nat && bool_decide (drop 10 s = [NL])) eqn:E;
      [|reflexivity].
    exfalso.
    assert (Hacc : Phone.init s = Ok (Field.init s)).
    { apply Phone_init_accepts. apply orb_prop in E as [E | E].
      - apply Nat.eqb_eq in E. split; [lia|]. split; [exact Hd|].
        left. apply skipn_all2. lia.
      - apply andb_prop in E as [E1 E2]. apply Nat.eqb_eq in E1.
        apply bool_decide_eq_true in E2. split; [lia|]. split; [exact Hd|].
        now right. }
    congruence.
  - apply Phone_init_accepts in H as (Hl & Hd & Hr). rewrite Hd. cbn [andb].
    assert (Hlen : length (drop 10 s) = (length s - 10)%nat) by apply length_drop.
    destruct Hr as [Hr | Hr]; rewrite Hr in *; cbn [length] in Hlen.
    + replace (length s =? 10)%nat with true by (symmetry; apply Nat.eqb_eq; lia).
      reflexivity.
    + replace (length s =? 11)%nat with true by (symmetry; apply Nat.eqb_eq; lia).
      rewrite bool_decide_eq_true_2 by reflexivity.
      now rewrite orb_true_r.
Qed.

(** X1.  [Phone] accepts a string exactly when it is made of ten decimal
    digits (of any script), optionally followed by a single newline; every
    other string raises [ValueError("Phone number must be exactly 10
    digits.")].  The accepted phone stores the string unchanged. *)
Theorem X1_phone_accepted_shape (s : str) :
  Phone.init s =
  if ten_digits_opt_newline s then Ok (Field.init s)
  else Raise (ValueError (lit "Phone number must be exactly 10 digits.")).
Proof. apply Phone_init_shape. Qed.

(** X2.  [Record(name, birthday)]: an empty name raises
    [ValueError("Please enter the name.")] whatever the birthday is; with
    a name, a missing or empty birthday gives a record without birthday,
    a birthday that [strptime] reads gives a record keeping the text as
    written, and any other birthday raises
    [ValueError("birthday format must be DD.MM.YYYY")].  A new record has
    no phones. *)
Theorem X2_record_init_cases (name : str) (birthday : option str) :
  Record_.init name birthday =
  match name, birthday with
  | [], _ => Raise (ValueError (lit "Please enter the name."))
  | _ :: _, None | _ :: _, Some [] => Ok (fresh_record name [])
  | _ :: _, Some v =>
      match datetime.strptime_dmY v with
      | Ok _ => Ok (Record_.set_birthday (Some (Field.init v)) (fresh_record name []))
      | Raise _ => Raise (ValueError (lit "birthday format must be DD.MM.YYYY"))
      end
  end.
Proof.
  destruct name as [|c name]; [reflexivity|].
  destruct birthday as [[|b v]|]; try reflexivity.
  unfold Record_.init, rbind, Birthday.init. cbn [Name.init truthy].
  destruct (datetime.strptime_dmY (b :: v)) as [d | e] eqn:E; [reflexivity|].
  unfold datetime.strptime_dmY in E.
  destruct (datetime.match_dmY (b :: v)) as [[[[? ?] ?] [|? ?]]|];
    try (injection E as <-; reflexivity).
  apply date_new_raises in E as [msg ->]. reflexivity.
Qed.

(** *** Reading a written date *)

(** The four digits of a year are read back as the year. *)
Lemma year_token_table :
  forallb
    (fun i =>
       let y := Z.of_nat i in
       let Y := zero_pad 4 (str_of_int y) in
       (length Y =? 4)%nat && forallb ascii_digit Y && (py_int Y =? y))
    (seq 1 (Z.to_nat 9999)) = true.
Proof. vm_compute. reflexivity. Qed.

Lemma year_token y :
  1 <= y <= 9999 ->
  let Y := zero_pad 4 (str_of_int y) in
  datetime.group_Y Y = [(Y, [])] /\ py_int Y = y.
Proof.
  intros Hy. pose proof year_token_table as T. rewrite forallb_forall in T.
  specialize (T (Z.to_nat y)). rewrite Z2Nat.id in T by lia.
  specialize (T ltac:(apply in_seq; lia)). cbv zeta in T |- *.
  apply andb_prop in T as [T Hi]. apply andb_prop in T as [Hl Hd].
  apply Nat.eqb_eq in Hl. apply Z.eqb_eq in Hi. split; [|exact Hi].
  unfold datetime.group_Y. rewrite re_rep_d, Hl.
  rewrite firstn_all2 by lia. rewrite skipn_all2 by lia.
  replace (forallb re_digit _) with true; [reflexivity|].
  symmetry. apply forallb_forall. intros c Hc. apply ascii_digit_re_digit.
  rewrite forallb_forall in Hd. now apply Hd.
Qed.

Lemma small_cases (n hi : nat) (x : Z) :
  1 <= x <= Z.of_nat hi -> In x (map Z.of_nat (seq 1 hi)).
Proof.
  intros H. apply in_map_iff. exists (Z.to_nat x).
  split; [lia | apply in_seq; lia].
Qed.

(** One token: its characters are computed first, then the matcher runs
    on them. *)
Ltac token_case :=
  cbv zeta;
  match goal with
  | |- context [?t ++ DOT :: _] =>
      let v := eval vm_compute in t in change t with v
  end;
  cbn [app]; cbv -[app]; cbn [app]; rewrite ?app_nil_r; split; reflexivity.

(** A day, written with or without its leading zero and followed by a
    dot, is read as a whole by the group of [%d] and the dot. *)
Lemma day_token {X} (pad : bool) (dd : Z) (rest : str)
  (K : str -> str -> list X) :
  1 <= dd <= 31 ->
  let tok := if pad then zero_pad 2 (str_of_int dd) else str_of_int dd in
  ('(d, r1) ← datetime.group_d (tok ++ DOT :: rest);
   '(_, r2) ← re_chr DOT r1; K d r2)
  = K tok rest /\ py_int tok = dd.
Proof.
  intros H. apply (small_cases 0 31) in H. cbn [seq map] in H.
  repeat (destruct H as [<- | H]; [destruct pad; token_case|]).
  destruct H.
Qed.

Lemma month_token {X} (pad : bool) (m : Z) (rest : str)
  (K : str -> str -> list X) :
  1 <= m <= 12 ->
  let tok := if pad then zero_pad 2 (str_of_int m) else str_of_int m in
  ('(d, r1) ← datetime.group_m (tok ++ DOT :: rest);
   '(_, r2) ← re_chr DOT r1; K d r2)
  = K tok rest /\ py_int tok = m.
Proof.
  intros H. apply (small_cases 0 12) in H. cbn [seq map] in H.
  repeat (destruct H as [<- | H]; [destruct pad; token_case|]).
  destruct H.
Qed.

Lemma match_written pad_day pad_month d :
  valid_date d ->
  exists D Mo Y,
    datetime.match_dmY (written_dmY pad_day pad_month d) = Some (D, Mo, Y, [])
    /\ py_int D = datetime.day d /\ py_int Mo = datetime.month d
    /\ py_int Y = datetime.year d.
Proof.
  intros (Hy & Hm & Hd).
  assert (Hd31 : 1 <= datetime.day d <= 31).
  { split; [lia|]. etransitivity; [apply Hd|].
    unfold datetime._days_in_month.
    destruct ((datetime.month d =? 2) && _); [lia|].
    destruct (month_cases _ Hm) as
      [-> | [-> | [-> | [-> | [-> | [-> | [-> | [-> | [-> | [-> | [-> | ->]]]]]]]]]]];
      cbv; discriminate. }
  unfold written_dmY.
  set (D := if pad_day then _ else _).
  set (Mo := if pad_month then _ else _).
  set (Y := zero_pad 4 _).
  exists D, Mo, Y.
  destruct (year_token _ Hy) as [HY HYi].
  destruct (day_token pad_day (datetime.day d) (Mo ++ DOT :: Y)
              (fun d r2 => '(m, r3) ← datetime.group_m r2;
                           '(_, r4) ← re_chr DOT r3;
                           '(y, r5) ← datetime.group_Y r4;
                           [(d, m, y, r5)]) Hd31) as [E1 I1].
  destruct (month_token pad_month (datetime.month d) Y
              (fun m r4 => '(y, r5) ← datetime.group_Y r4;
                           [(D, m, y, r5)]) Hm) as [E2 I2].
  split; [|repeat split; assumption].
  unfold datetime.match_dmY.
  etransitivity; [apply (f_equal (@hd_error _)); exact E1|].
  etransitivity; [apply (f_equal (@hd_error _)); exact E2|].
  fold Y in HY. rewrite HY. reflexivity.
Qed.

(** X3.  Every date of the calendar, written day.month.year with a
    four-digit year (the day and the month with or without their leading
    zero), is a birthday that [Birthday] accepts, and [strptime] reads it
    back as that date. *)
Theorem X3_written_date_is_read_back (pad_day pad_month : bool) (d : datetime.date) :
  valid_date d ->
  let text := written_dmY pad_day pad_month d in
  datetime.strptime_dmY text = Ok d
  /\ Birthday.init text = Ok (Field.init text).
Proof.
  intros Hv text.
  destruct (match_written pad_day pad_month d Hv) as (D & Mo & Y & Hm & HD & HMo & HY).
  assert (E : datetime.strptime_dmY text = Ok d).
  { unfold datetime.strptime_dmY. fold text in Hm. rewrite Hm, HD, HMo, HY.
    now apply date_new_valid. }
  split; [exact E|]. unfold Birthday.init. now rewrite E.
Qed.

Lemma X3_written_date_is_read_back_witness :
  datetime.strptime_dmY (lit "5.06.1990") = Ok (mkdate 1990 6 5)
  /\ Birthday.init (lit "5.06.1990") = Ok (Field.init (lit "5.06.1990")).
Proof.
  apply (X3_written_date_is_read_back false true (mkdate 1990 6 5)).
  unfold valid_date. vm_compute. repeat split; discriminate.
Defined.

(** ** Records *)

(** X4.  [remove_phone(p)] never raises.  It returns [True] exactly when
    [p] is stored; it then drops the first phone of value [p] and no
    other: one phone less, [p] stored once less, every other value stored
    as often as before, the remaining phones in their order.  When [p] is
    not stored it returns [False] and the record is unchanged.  Name and
    birthday are never touched. *)
Theorem X4_remove_phone_effect (self : Record_.t) (p : str) :
  exists self' b,
    Record_.remove_phone p self = (self', Ok b)
    /\ (b = true <-> (1 <= count_phone p (Record_.phones self))%nat)
    /\ (b = false -> self' = self)
    /\ Record_.phones self' = remove_first p (Record_.phones self)
    /\ count_phone p (Record_.phones self')
       = (count_phone p (Record_.phones self) - 1)%nat
    /\ (forall q, q <> p ->
          count_phone q (Record_.phones self') = count_phone q (Record_.phones self))
    /\ length (Record_.phones self')
       = (length (Record_.phones self) - (if b then 1 else 0))%nat
    /\ Record_.name self' = Record_.name self
    /\ Record_.birthday self' = Record_.birthday self.
Proof.
  rewrite remove_phone_eq.
  destruct (1 <=? count_phone p (Record_.phones self))%nat eqn:Hc.
  - apply Nat.leb_le in Hc. eexists. exists true. split; [reflexivity|].
    cbn [Record_.phones Record_.set_phones Record_.name Record_.birthday].
    split; [tauto|]. split; [discriminate|]. split; [reflexivity|].
    split; [apply count_remove_first|].
    split; [intros q Hq; now apply count_remove_first_other|].
    split; [|split; reflexivity].
    pose proof (length_remove_first _ _ Hc). lia.
  - apply Nat.leb_gt in Hc. exists self, false. split; [reflexivity|].
    split; [split; [discriminate | lia]|]. split; [reflexivity|].
    assert (H0 : count_phone p (Record_.phones self) = O) by lia.
    rewrite (remove_first_absent _ _ H0).
    split; [reflexivity|]. split; [lia|]. split; [reflexivity|].
    split; [lia|]. split; reflexivity.
Qed.

(** X5.  [edit_phone(old, new)] raises in two cases, and in both leaves
    the record as it was: when [old] is not stored it raises
    [ValueError("Phone number <old> not found.")], also when [new] is
    invalid; when [old] is stored and [new] is invalid it raises the
    [ValueError] of [Phone].  Otherwise it returns, the first [old] is
    gone and [new] is the last phone of the record (the new number does
    not take the place of the old one). *)
Theorem X5_edit_phone_cases (self : Record_.t) (old new : str) :
  (count_phone old (Record_.phones self) = O ->
   Record_.edit_phone old new self
   = (self, Raise (ValueError (lit "Phone number " ++ old ++ lit " not found."))))
  /\ ((1 <= count_phone old (Record_.phones self))%nat ->
      ten_digits_opt_newline new = false ->
      Record_.edit_phone old new self
      = (self, Raise (ValueError (lit "Phone number must be exactly 10 digits."))))
  /\ ((1 <= count_phone old (Record_.phones self))%nat ->
      ten_digits_opt_newline new = true ->
      exists self',
        Record_.edit_phone old new self = (self', Ok tt)
        /\ Record_.phones self'
           = remove_first old (Record_.phones self ++ [Field.init new])
        /\ list.last (Record_.phones self') = Some (Field.init new)
        /\ Record_.name self' = Record_.name self
        /\ Record_.birthday self' = Record_.birthday self).
Proof.
  pose proof (Phone_init_shape new) as Hinit.
  rewrite edit_phone_eq, Hinit. split; [|split].
  - intros H. now rewrite H.
  - intros Hc Hn. apply Nat.leb_le in Hc. now rewrite Hc, Hn.
  - intros Hc Hn. pose proof Hc as Hb. apply Nat.leb_le in Hb. rewrite Hb, Hn.
    eexists. split; [reflexivity|].
    cbn [Record_.phones Record_.set_phones Record_.name Record_.birthday].
    split; [reflexivity|]. split; [|split; reflexivity].
    (* the phone appended stays last: the first [old] is found before it *)
    clear Hb Hinit Hn. induction (Record_.phones self) as [|q l IH]; cbn in Hc; [lia|].
    cbn [app remove_first].
    destruct (str_eqb (Field.value q) old) eqn:E.
    + apply last_snoc.
    + cbn [plus] in Hc. specialize (IH Hc).
      rewrite last_cons, IH. reflexivity.
Qed.

Lemma X5_edit_phone_cases_witness :
  exists self',
    Record_.edit_phone (lit "1111111111") (lit "2222222222") bob_two_phones
      = (self', Ok tt)
    /\ Record_.phones self'
       = remove_first (lit "1111111111")
           (Record_.phones bob_two_phones ++ [Field.init (lit "2222222222")])
    /\ list.last (Record_.phones self') = Some (Field.init (lit "2222222222"))
    /\ Record_.name self' = Record_.name bob_two_phones
    /\ Record_.birthday self' = Record_.birthday bob_two_phones.
Proof.
  apply (X5_edit_phone_cases bob_two_phones (lit "1111111111") (lit "2222222222")).
  - vm_compute. lia.
  - vm_compute. reflexivity.
Defined.

(** X6.  [record.add_birthday(text)]: a text that [strptime] reads
    replaces whatever birthday the record had, and is kept as written; any
    other text raises [ValueError("birthday format must be DD.MM.YYYY")]
    and leaves the record, with its earlier birthday, as it was.  Name
    and phones are never touched. *)
Theorem X6_record_add_birthday (self : Record_.t) (text : str) :
  match datetime.strptime_dmY text with
  | Ok _ =>
      Record_.add_birthday text self
      = (Record_.set_birthday (Some (Field.init text)) self, Ok tt)
  | Raise _ =>
      Record_.add_birthday text self
      = (self, Raise (ValueError (lit "birthday format must be DD.MM.YYYY")))
  end
  /\ Record_.name (fst (Record_.add_birthday text self)) = Record_.name self
  /\ Record_.phones (fst (Record_.add_birthday text self)) = Record_.phones self.
Proof.
  unfold Record_.add_birthday, bind, lift, Birthday.init.
  destruct (datetime.strptime_dmY text) as [d | e] eqn:E.
  - repeat split.
  - unfold datetime.strptime_dmY in E.
    destruct (datetime.match_dmY text) as [[[[? ?] ?] [|? ?]]|];
      try (injection E as <-; repeat split).
    apply date_new_raises in E as [msg ->]. repeat split.
Qed.

(** ** The address book *)

Lemma dict_get_del_other {V} (d : dict V) k k0 :
  k0 <> k -> dict_get (dict_del d k) k0 = dict_get d k0.
Proof.
  intros Hne. induction d as [|[k' v'] d IH]; cbn; [reflexivity|].
  destruct (str_eqb k' k) eqn:E; cbn.
  - apply str_eqb_eq in E. subst k'.
    replace (str_eqb k k0) with false; [reflexivity|].
    symmetry. apply str_eqb_neq. congruence.
  - now rewrite IH.
Qed.

Lemma dict_del_keys {V} (d : dict V) k :
  List.NoDup (map fst d) ->
  map fst (dict_del d k)
  = List.filter (fun k' => negb (str_eqb k' k)) (map fst d).
Proof.
  induction d as [|[k' v'] d IH]; cbn; [reflexivity|].
  intros Hnd. apply List.NoDup_cons_iff in Hnd as [Hk Hnd].
  destruct (str_eqb k' k) eqn:E; cbn.
  - apply str_eqb_eq in E. subst k'. symmetry.
    apply forallb_filter_id. apply forallb_forall. intros x Hx.
    apply negb_true_iff, str_eqb_neq. intros ->. auto.
  - now rewrite IH.
Qed.

(** X7.  [book.add_record(record)] stores the record under its own name:
    [find] of that name then returns this record, whatever was stored
    under the name before (the last write wins), and [find] of every
    other name returns what it returned before.  A name already in the
    book keeps its place in the order of the book; a new name goes to the
    end.  No record is changed. *)
Theorem X7_add_record_then_find (w : World) (record : ref) (o : Record_.t) :
  heap w !! record = Some o ->
  let name := Field.value (Record_.name o) in
  exists w',
    AddressBook.add_record record w = (w', Ok tt)
    /\ AddressBook.find name w' = (w', Ok (Some record))
    /\ (forall k, k <> name ->
          AddressBook.find k w' = (w', Ok (dict_get (data w) k)))
    /\ map fst (data w')
       = (if dict_contains (data w) name then map fst (data w)
          else map fst (data w) ++ [name])
    /\ heap w' = heap w /\ clock w' = clock w.
Proof.
  intros Ho name. unfold AddressBook.add_record, bind, deref. rewrite Ho.
  eexists. split; [reflexivity|].
  unfold AddressBook.find, bind, get, ret. cbn [data set_data heap clock].
  split; [now rewrite dict_get_set, str_eqb_refl|].
  split.
  - intros k Hk. rewrite dict_get_set.
    replace (str_eqb (Field.value (Record_.name o)) k) with false; [reflexivity|].
    symmetry. apply str_eqb_neq. subst name. congruence.
  - split; [apply dict_set_keys | split; reflexivity].
Qed.

Lemma X7_add_record_then_find_witness :
  exists w',
    AddressBook.add_record 0%nat alice_book = (w', Ok tt)
    /\ AddressBook.find (lit "Alice") w' = (w', Ok (Some 0%nat))
    /\ (forall k, k <> lit "Alice" ->
          AddressBook.find k w' = (w', Ok (dict_get (data alice_book) k)))
    /\ map fst (data w')
       = (if dict_contains (data alice_book) (lit "Alice")
          then map fst (data alice_book)
          else map fst (data alice_book) ++ [lit "Alice"])
    /\ heap w' = heap alice_book /\ clock w' = clock alice_book.
Proof.
  apply (X7_add_record_then_find alice_book 0%nat
           (Record_.set_birthday (Some (Field.init (lit "15.06.1990")))
              (fresh_record (lit "Alice") [Field.init (lit "1234567890")]))).
  vm_compute. reflexivity.
Defined.

(** X8.  [book.delete(name)] never raises.  It returns [True] exactly
    when the name is in the book; afterwards [find(name)] returns [None],
    every other name is found as before, and the remaining names keep
    their order.  The record objects themselves are not changed.  (The
    keys of a dictionary are distinct.) *)
Theorem X8_delete_then_find (w : World) (name : str) :
  keys_distinct w ->
  exists w' b,
    AddressBook.delete name w = (w', Ok b)
    /\ (b = true <-> is_Some (dict_get (data w) name))
    /\ (b = false -> w' = w)
    /\ AddressBook.find name w' = (w', Ok None)
    /\ (forall k, k <> name ->
          AddressBook.find k w' = (w', Ok (dict_get (data w) k)))
    /\ map fst (data w')
       = List.filter (fun k => negb (str_eqb k name)) (map fst (data w))
    /\ heap w' = heap w /\ clock w' = clock w.
Proof.
  intros Hk. unfold AddressBook.delete, bind, get, dict_contains.
  destruct (bool_decide (is_Some (dict_get (data w) name))) eqn:E.
  - apply bool_decide_eq_true in E. eexists. exists true.
    split; [reflexivity|]. split; [tauto|]. split; [discriminate|].
    unfold AddressBook.find, bind, get, ret, put. cbn [data set_data heap clock].
    split; [now rewrite dict_get_del|].
    split; [intros k Hne; now rewrite dict_get_del_other|].
    split; [now apply dict_del_keys | split; reflexivity].
  - apply bool_decide_eq_false in E. exists w, false.
    split; [reflexivity|].
    split; [split; [discriminate | intros H; now apply E in H]|].
    split; [reflexivity|].
    assert (Hn : dict_get (data w) name = None).
    { destruct (dict_get (data w) name); [exfalso; apply E; eauto | reflexivity]. }
    unfold AddressBook.find, bind, get, ret.
    split; [now rewrite Hn|]. split; [reflexivity|].
    split; [|split; reflexivity].
    symmetry. apply forallb_filter_id. apply forallb_forall. intros x Hx.
    apply negb_true_iff, str_eqb_neq. intros ->.
    now apply dict_get_None in Hn.
Qed.

Lemma X8_delete_then_find_witness :
  exists w' b,
    AddressBook.delete (lit "Alice") alice_book = (w', Ok b)
    /\ (b = true <-> is_Some (dict_get (data alice_book) (lit "Alice")))
    /\ (b = false -> w' = alice_book)
    /\ AddressBook.find (lit "Alice") w' = (w', Ok None)
    /\ (forall k, k <> lit "Alice" ->
          AddressBook.find k w' = (w', Ok (dict_get (data alice_book) k)))
    /\ map fst (data w')
       = List.filter (fun k => negb (str_eqb k (lit "Alice")))
           (map fst (data alice_book))
    /\ heap w' = heap alice_book /\ clock w' = clock alice_book.
Proof.
  apply (X8_delete_then_find alice_book (lit "Alice")).
  apply run_invariant, empty_book_invariant.
Defined.

(** ** The order of dates *)

Lemma leap_cases y :
  datetime._is_leap y = true /\ (y mod 4 = 0 /\ (y mod 100 <> 0 \/ y mod 400 = 0))
  \/ datetime._is_leap y = false /\ (y mod 4 <> 0 \/ (y mod 100 = 0 /\ y mod 400 <> 0)).
Proof.
  unfold datetime._is_leap.
  destruct (y mod 4 =? 0) eqn:E4; destruct (y mod 100 =? 0) eqn:E100;
    destruct (y mod 400 =? 0) eqn:E400; cbn;
    repeat match goal with
           | H : (_ =? _) = true |- _ => apply Z.eqb_eq in H
           | H : (_ =? _) = false |- _ => apply Z.eqb_neq in H
           end; tauto.
Qed.

(** A year has 365 days, a leap year 366. *)
Lemma days_before_next_year y :
  datetime._days_before_year (y + 1)
  = datetime._days_before_year y + 365 + Z.b2z (datetime._is_leap y).
Proof.
  unfold datetime._days_before_year. cbv zeta.
  destruct (leap_cases y) as [[-> H] | [-> H]]; cbn [Z.b2z];
    Z.div_mod_to_equations; lia.
Qed.

Lemma days_before_year_mono y1 y2 :
  y1 <= y2 -> datetime._days_before_year y1 <= datetime._days_before_year y2.
Proof.
  intros H. unfold datetime._days_before_year. cbv zeta.
  Z.div_mod_to_equations. lia.
Qed.

Lemma toordinal_in_year x :
  valid_date x ->
  datetime._days_before_year (datetime.year x) + 1 <= datetime.toordinal x
  /\ datetime.toordinal x <= datetime._days_before_year (datetime.year x + 1).
Proof.
  intros Hv. pose proof (day_of_year_bound x Hv) as Hd.
  rewrite days_before_next_year.
  unfold datetime.toordinal, datetime._ymd2ord. lia.
Qed.

(** Within a year the day number grows with the month. *)
Lemma days_before_month_step y m1 m2 :
  1 <= m1 -> m1 < m2 -> m2 <= 12 ->
  datetime._days_before_month y m1 + datetime._days_in_month y m1
  <= datetime._days_before_month y m2.
Proof.
  intros H1 H12 H2.
  unfold datetime._days_before_month, datetime._days_in_month.
  destruct (datetime._is_leap y);
    destruct (month_cases m1 ltac:(lia)) as
      [-> | [-> | [-> | [-> | [-> | [-> | [-> | [-> | [-> | [-> | [-> | ->]]]]]]]]]]];
    destruct (month_cases m2 ltac:(lia)) as
      [-> | [-> | [-> | [-> | [-> | [-> | [-> | [-> | [-> | [-> | [-> | ->]]]]]]]]]]];
    try lia; cbv; discriminate.
Qed.

(** [<] on dates is the order of the day numbers. *)
Lemma lt_toordinal a b :
  valid_date a -> valid_date b ->
  datetime.lt a b = true <-> datetime.toordinal a < datetime.toordinal b.
Proof.
  intros Ha Hb.
  pose proof (toordinal_in_year a Ha) as [La Ua].
  pose proof (toordinal_in_year b Hb) as [Lb Ub].
  destruct Ha as (Hya & Hma & Hda). destruct Hb as (Hyb & Hmb & Hdb).
  unfold datetime.lt.
  destruct (Z.lt_trichotomy (datetime.year a) (datetime.year b)) as [Hy | [Hy | Hy]].
  - replace (datetime.year a <? datetime.year b) with true
      by (symmetry; apply Z.ltb_lt; lia).
    cbn [orb]. split; [intros _ | reflexivity].
    pose proof (days_before_year_mono (datetime.year a + 1) (datetime.year b)). lia.
  - replace (datetime.year a <? datetime.year b) with false
      by (symmetry; apply Z.ltb_ge; lia).
    replace (datetime.year a =? datetime.year b) with true
      by (symmetry; apply Z.eqb_eq; lia).
    cbn [orb andb]. unfold datetime.toordinal, datetime._ymd2ord. rewrite Hy.
    destruct (Z.lt_trichotomy (datetime.month a) (datetime.month b)) as [Hm | [Hm | Hm]].
    + replace (datetime.month a <? datetime.month b) with true
        by (symmetry; apply Z.ltb_lt; lia).
      cbn [orb]. split; [intros _ | reflexivity].
      pose proof (days_before_month_step (datetime.year b) _ _ (proj1 Hma) Hm (proj2 Hmb)).
      rewrite Hy in Hda. lia.
    + replace (datetime.month a <? datetime.month b) with false
        by (symmetry; apply Z.ltb_ge; lia).
      replace (datetime.month a =? datetime.month b) with true
        by (symmetry; apply Z.eqb_eq; lia).
      cbn [orb andb]. rewrite Hm, Z.ltb_lt. lia.
    + replace (datetime.month a <? datetime.month b) with false
        by (symmetry; apply Z.ltb_ge; lia).
      replace (datetime.month a =? datetime.month b) with false
        by (symmetry; apply Z.eqb_neq; lia).
      cbn [orb andb]. split; [discriminate|].
      pose proof (days_before_month_step (datetime.year b) _ _ (proj1 Hmb) Hm (proj2 Hma)).
      rewrite Hy in Hda. lia.
  - replace (datetime.year a <? datetime.year b) with false
      by (symmetry; apply Z.ltb_ge; lia).
    replace (datetime.year a =? datetime.year b) with false
      by (symmetry; apply Z.eqb_neq; lia).
    cbn [orb andb]. split; [discriminate|].
    pose proof (days_before_year_mono (datetime.year b + 1) (datetime.year a)). lia.
Qed.

(** The same day and month one year later is 365 or 366 days away. *)
Lemma same_day_next_year y m d :
  datetime._ymd2ord (y + 1) m d - datetime._ymd2ord y m d <= 366.
Proof.
  unfold datetime._ymd2ord, datetime._days_before_month.
  rewrite days_before_next_year.
  destruct (leap_cases y) as [[Hl H] | [Hl H]];
    destruct (leap_cases (y + 1)) as [[Hl' H'] | [Hl' H']];
    rewrite Hl, Hl'; destruct (2 <? m); cbn [andb Z.b2z]; lia.
Qed.

(** ** More on the upcoming birthdays *)

Lemma strptime_valid s d : datetime.strptime_dmY s = Ok d -> valid_date d.
Proof.
  unfold datetime.strptime_dmY.
  destruct (datetime.match_dmY s) as [[[[? ?] ?] [|? ?]]|]; try discriminate.
  intros H. now apply date_new_inv in H.
Qed.

(** X12.  The candidate date of a birthday is never in the past: it is
    the birthday's day and month in today's year or in the next one, from
    0 to 365 days after today.  So the test [0 <= (candidate -
    today).days] of the loop never fails, and the record is reported
    exactly when the candidate is at most [days] days away. *)
Theorem X12_candidate_not_in_the_past (bd today d : datetime.date) (days : Z) :
  valid_date today ->
  AddressBook.birthday_this_year bd today = Ok d ->
  0 <= datetime.sub_days d today <= 365
  /\ datetime.month d = datetime.month bd /\ datetime.day d = datetime.day bd
  /\ (datetime.year d = datetime.year today
      \/ datetime.year d = datetime.year today + 1)
  /\ in_window d today days = (datetime.sub_days d today <=? days).
Proof.
  intros Ht Hd.
  assert (H : 0 <= datetime.sub_days d today <= 365
              /\ datetime.month d = datetime.month bd
              /\ datetime.day d = datetime.day bd
              /\ (datetime.year d = datetime.year today
                  \/ datetime.year d = datetime.year today + 1)).
  { unfold AddressBook.birthday_this_year, rbind, datetime.replace_year in Hd.
    destruct (datetime.date_new (datetime.year today) _ _) as [c|] eqn:Hc;
      [|discriminate].
    apply date_new_inv in Hc as [-> Hcv].
    pose proof (toordinal_in_year _ Hcv) as [Lc Uc].
    pose proof (toordinal_in_year _ Ht) as [Lt Ut].
    unfold mkdate in Lc, Uc. cbn [datetime.year] in Lc, Uc.
    destruct (datetime.lt _ today) eqn:Hlt.
    - apply date_new_inv in Hd as [-> Hdv].
      apply (lt_toordinal _ _ Hcv Ht) in Hlt.
      pose proof (toordinal_in_year _ Hdv) as [Ld Ud].
      pose proof (same_day_next_year (datetime.year today) (datetime.month bd)
                    (datetime.day bd)) as Hn.
      unfold mkdate in *. unfold datetime.sub_days, datetime.toordinal in *.
      cbn [datetime.year datetime.month datetime.day] in *.
      repeat split; lia.
    - injection Hd as <-.
      assert (Hge : ~ datetime.toordinal (mkdate (datetime.year today)
                        (datetime.month bd) (datetime.day bd))
                      < datetime.toordinal today).
      { intros Hx. apply (lt_toordinal _ _ Hcv Ht) in Hx. congruence. }
      unfold mkdate in *. unfold datetime.sub_days.
      rewrite days_before_next_year in Uc, Ut.
      cbn [datetime.year datetime.month datetime.day] in *.
      destruct (datetime._is_leap (datetime.year today)); cbn [Z.b2z] in *;
        repeat split; try lia; now left. }
  destruct H as (Hs & Hm & Hdd & Hy). repeat split; try tauto; try lia.
  unfold in_window.
  replace (0 <=? datetime.sub_days d today) with true
    by (symmetry; apply Z.leb_le; lia).
  reflexivity.
Qed.

Lemma X12_candidate_not_in_the_past_witness :
  let bd := mkdate 1985 1 2 in
  let today := mkdate 2024 12 28 in
  let d := mkdate 2025 1 2 in
  0 <= datetime.sub_days d today <= 365
  /\ datetime.month d = datetime.month bd /\ datetime.day d = datetime.day bd
  /\ (datetime.year d = datetime.year today
      \/ datetime.year d = datetime.year today + 1)
  /\ in_window d today 7 = (datetime.sub_days d today <=? 7).
Proof.
  intros bd today d.
  apply (X12_candidate_not_in_the_past bd today d 7).
  - unfold valid_date. vm_compute. repeat split; discriminate.
  - vm_compute. reflexivity.
Defined.

(** The candidate exists for every birthday but the 29th of February, in
    every year but the last of the calendar. *)
Lemma birthday_this_year_exists bd today :
  valid_date bd ->
  1 <= datetime.year today <= 9998 ->
  ~ (datetime.month bd = 2 /\ datetime.day bd = 29) ->
  exists d, AddressBook.birthday_this_year bd today = Ok d.
Proof.
  intros (_ & Hm & Hd) Hy Hleap.
  assert (Hany : forall y, 1 <= y <= 9999 ->
            datetime.date_new y (datetime.month bd) (datetime.day bd)
            = Ok (mkdate y (datetime.month bd) (datetime.day bd))).
  { intros y Hyy.
    apply (date_new_valid (mkdate y (datetime.month bd) (datetime.day bd))).
    split; [exact Hyy|]. split; [exact Hm|].
    unfold mkdate. cbn [datetime.year datetime.month datetime.day].
    split; [lia|]. revert Hd Hleap. unfold datetime._days_in_month.
    destruct (month_cases _ Hm) as
      [-> | [-> | [-> | [-> | [-> | [-> | [-> | [-> | [-> | [-> | [-> | ->]]]]]]]]]]];
      destruct (datetime._is_leap (datetime.year bd));
      destruct (datetime._is_leap y);
      cbv -[Z.le Z.lt datetime.day Z.add]; intros; lia. }
  unfold AddressBook.birthday_this_year, rbind, datetime.replace_year.
  rewrite (Hany (datetime.year today)) by lia.
  destruct (datetime.lt _ today); [rewrite Hany by lia|]; eauto.
Qed.

Lemma upcoming_from_returns today days (h : list Record_.t) (d : dict ref) acc :
  (forall k r, In (k, r) d ->
     exists o items, h !! r = Some o
                     /\ AddressBook.upcoming_of today days o = Ok items) ->
  exists out,
    upcoming_from today days (map (fun kr : str * ref => h !! snd kr) d) acc = Ok out.
Proof.
  revert acc. induction d as [|[k0 r0] d IH]; intros acc H; cbn; [eauto|].
  destruct (H k0 r0 (or_introl eq_refl)) as (o & items & -> & ->).
  apply IH. intros k r Hin. apply (H k r). now right.
Qed.

(** X13.  The query returns, and changes nothing, whenever today's year
    is before 9999 and no record of the directory has its birthday on a
    29th of February.  (With the leap day, or in the year 9999, it can
    raise: see C6.) *)
Theorem X13_query_returns (w : World) (days : Z) :
  names_match_keys w -> birthdays_valid w ->
  1 <= datetime.year (clock w) <= 9998 ->
  (forall k r o b bd,
     In (k, r) (data w) -> heap w !! r = Some o ->
     Record_.birthday o = Some b ->
     datetime.strptime_dmY (Field.value b) = Ok bd ->
     ~ (datetime.month bd = 2 /\ datetime.day bd = 29)) ->
  exists out, AddressBook.get_upcoming_birthdays days w = (w, Ok out).
Proof.
  intros Hn Hbv Hy Hleap. rewrite get_upcoming_birthdays_eq.
  unfold directory. rewrite map_map. cbn [snd].
  destruct (upcoming_from_returns (clock w) days (heap w) (data w) []) as [out Hout];
    [|rewrite Hout; eauto].
  intros k r Hin. destruct (Hn k r Hin) as (o & Ho & _).
  exists o. destruct (Record_.birthday o) as [b|] eqn:Hb.
  - assert (Hok : birthday_ok o).
    { apply Hbv, list_elem_of_In. now apply list_elem_of_lookup_2 in Ho. }
    destruct (Hok b Hb) as [bd Hp].
    destruct (birthday_this_year_exists bd (clock w) (strptime_valid _ _ Hp) Hy
                (Hleap k r o b bd Hin Ho Hb Hp)) as [d Hd].
    eexists. split; [exact Ho|].
    apply (upcoming_of_candidate _ _ _ _ _ _ Hb Hp Hd).
  - exists []. split; [exact Ho | now apply upcoming_of_no_birthday].
Qed.

Lemma X13_query_returns_witness :
  exists out, AddressBook.get_upcoming_birthdays 7 alice_book = (alice_book, Ok out).
Proof.
  apply (X13_query_returns alice_book 7).
  - apply run_invariant, empty_book_invariant.
  - apply run_birthdays_valid. intros o [].
  - vm_compute. split; discriminate.
  - intros k r o b bd Hin Ho Hb Hp [Hm Hd].
    vm_compute in Hin. destruct Hin as [[= <- <-] | []].
    vm_compute in Ho. injection Ho as <-.
    vm_compute in Hb. injection Hb as <-.
    vm_compute in Hp. injection Hp as <-.
    discriminate Hm.
Defined.

(** One record adds at most one item, under its own name. *)
Lemma upcoming_of_items today days o items :
  AddressBook.upcoming_of today days o = Ok items ->
  items = []
  \/ exists b bd d,
       Record_.birthday o = Some b
       /\ datetime.strptime_dmY (Field.value b) = Ok bd
       /\ AddressBook.birthday_this_year bd today = Ok d
       /\ in_window d today days = true
       /\ items = [entry_of o d].
Proof.
  intros H. destruct (Record_.birthday o) as [b|] eqn:Hb.
  - destruct (upcoming_of_ok _ _ _ _ _ Hb H) as (bd & d & Hp & Hd & ->).
    destruct (in_window d today days) eqn:Hw; [|now left].
    right. exists b, bd, d. auto.
  - rewrite (upcoming_of_no_birthday _ _ _ Hb) in H. injection H as <-. now left.
Qed.

Lemma upcoming_from_order today days (h : list Record_.t) (d : dict ref) acc out :
  (forall k r o, In (k, r) d -> h !! r = Some o ->
     Field.value (Record_.name o) = k) ->
  upcoming_from today days (map (fun kr : str * ref => h !! snd kr) d) acc = Ok out ->
  exists rest, out = acc ++ rest /\ sublist (map entry_name rest) (map fst d).
Proof.
  revert acc. induction d as [|[k0 r0] d IH]; intros acc Hn; cbn.
  - intros [= <-]. exists []. split; [now rewrite app_nil_r | constructor].
  - destruct (h !! r0) as [o0|] eqn:Ho; [|discriminate].
    destruct (AddressBook.upcoming_of today days o0) as [items0|] eqn:Hi; [|discriminate].
    intros H.
    destruct (IH (acc ++ items0) (fun k r o Hin => Hn k r o (or_intror Hin)) H)
      as (rest & -> & Hsub).
    exists (items0 ++ rest). split; [now rewrite app_assoc|].
    destruct (upcoming_of_items _ _ _ _ Hi) as [-> | (b & bd & c & _ & _ & _ & _ & ->)].
    + cbn. now apply sublist_cons.
    + cbn. rewrite (Hn k0 r0 o0 (or_introl eq_refl) Ho). now apply sublist_skip.
Qed.

(** X10.  The answer of the query lists names of the book in the order of
    the book (the order in which the names were first added), each name at
    most once: the names of the answer are a subsequence of the keys. *)
Theorem X10_answer_in_book_order (w w' : World) (days : Z) (out : list entry) :
  invariant w ->
  AddressBook.get_upcoming_birthdays days w = (w', Ok out) ->
  sublist (map entry_name out) (map fst (data w))
  /\ List.NoDup (map entry_name out).
Proof.
  intros [Hn Hk] H. rewrite get_upcoming_birthdays_eq in H.
  injection H as _ H. unfold directory in H. rewrite map_map in H. cbn [snd] in H.
  apply upcoming_from_order in H as (rest & -> & Hsub).
  - cbn [app]. split; [exact Hsub|].
    apply NoDup_ListNoDup. eapply sublist_NoDup; [|exact Hsub].
    apply NoDup_ListNoDup. exact Hk.
  - intros k r o Hin Ho. destruct (Hn k r Hin) as (o' & Ho' & Hname). congruence.
Qed.

Lemma X10_answer_in_book_order_witness :
  sublist (map entry_name
             [ {| entry_name := lit "Alice"; entry_birthday := lit "2024-06-17" |} ])
          (map fst (data alice_book))
  /\ List.NoDup (map entry_name
             [ {| entry_name := lit "Alice"; entry_birthday := lit "2024-06-17" |} ]).
Proof.
  apply (X10_answer_in_book_order alice_book alice_book 7).
  - apply run_invariant, empty_book_invariant.
  - apply alice_book_query.
Defined.

(** X11.  Every date the query reports is the text of a date of the
    calendar that is a working day (Monday to Friday), never a Saturday or
    a Sunday, and lies from 0 to [days + 2] days after today: a birthday on
    the last days of the window that falls on a weekend is reported with
    a Monday beyond the window. *)
Theorem X11_reported_dates (w w' : World) (days : Z) (out : list entry) (e : entry) :
  valid_date (clock w) ->
  AddressBook.get_upcoming_birthdays days w = (w', Ok out) ->
  In e out ->
  exists reported,
    entry_birthday e = datetime.strftime_Ymd reported
    /\ valid_date reported
    /\ 0 <= datetime.weekday reported <= 4
    /\ 0 <= datetime.sub_days reported (clock w) <= days + 2.
Proof.
  intros Ht H He. rewrite get_upcoming_birthdays_eq in H.
  injection H as _ H. unfold directory in H. rewrite map_map in H. cbn [snd] in H.
  apply upcoming_from_In in H as [_ H].
  apply H in He as [[] | (k & r & o & items & Hin & Ho & Hu & He)].
  destruct (upcoming_of_items _ _ _ _ Hu) as [-> | (b & bd & d & _ & _ & Hd & Hw & ->)];
    [destruct He|].
  destruct He as [<- | []].
  pose proof (birthday_this_year_valid _ _ _ Hd) as Hv.
  destruct (weekend_shift_days d Hv) as (Hsv & Hord & Hmon & Hsame).
  apply in_window_spec in Hw.
  exists (weekend_shift d). split; [reflexivity|]. split; [exact Hsv|].
  assert (Hwd : 0 <= datetime.weekday d < 7)
    by (unfold datetime.weekday; apply Z.mod_pos_bound; lia).
  unfold datetime.sub_days in *. rewrite Hord.
  destruct (datetime.weekday d =? 5) eqn:E5.
  - apply Z.eqb_eq in E5. rewrite Hmon by lia. lia.
  - apply Z.eqb_neq in E5. destruct (datetime.weekday d =? 6) eqn:E6.
    + apply Z.eqb_eq in E6. rewrite Hmon by lia. lia.
    + apply Z.eqb_neq in E6. rewrite Hsame by lia. lia.
Qed.

Lemma X11_reported_dates_witness :
  exists reported,
    lit "2024-06-17" = datetime.strftime_Ymd reported
    /\ valid_date reported
    /\ 0 <= datetime.weekday reported <= 4
    /\ 0 <= datetime.sub_days reported (clock alice_book) <= 7 + 2.
Proof.
  apply (X11_reported_dates alice_book alice_book 7
           [ {| entry_name := lit "Alice"; entry_birthday := lit "2024-06-17" |} ]
           {| entry_name := lit "Alice"; entry_birthday := lit "2024-06-17" |}).
  - unfold valid_date. vm_compute. repeat split; discriminate.
  - apply alice_book_query.
  - left. reflexivity.
Defined.

(** ** The commands *)

(** A decorated command never raises: every exception of the function
    becomes its answer; the world is the one the function left. *)
Lemma input_error_returns {A} (f : A -> M World str) a w :
  exists s, input_error f a w = (fst (f a w), Ok s).
Proof. unfold input_error. destruct (f a w) as [w' [s | []]]; eauto. Qed.

Lemma on_unchanged {A} r (m : M Record_.t A) o (x : result A) w :
  heap w !! r = Some o -> m o = (o, x) -> on r m w = (w, x).
Proof.
  intros Ho Hm. unfold on. rewrite Ho, Hm.
  replace (<[r:=o]> (heap w)) with (heap w) by (symmetry; now apply list_insert_id).
  now rewrite set_heap_id.
Qed.

Lemma on_changed {A} r (m : M Record_.t A) o o' (x : result A) w :
  heap w !! r = Some o -> m o = (o', x) ->
  on r m w = (set_heap (<[r := o']> (heap w)) w, x).
Proof. intros Ho Hm. unfold on. now rewrite Ho, Hm. Qed.

Lemma lookup_updated w name r o o' :
  dict_get (data w) name = Some r -> heap w !! r = Some o ->
  lookup (set_heap (<[r := o']> (heap w)) w) name = Some o'.
Proof.
  intros Hr Ho. unfold lookup. cbn [data heap set_heap]. rewrite Hr.
  apply list_lookup_insert_eq. now apply lookup_lt_Some in Ho.
Qed.

(** X14.  [change_phone]: with other than three arguments it answers
    "Give me name and phone please."; for a name that is not in the book
    it answers "Invalid contact."; for a contact of the book it answers
    "Give me name and phone please." when the old number is not stored or
    the new one is refused, and only otherwise changes the record: the
    first [old] is dropped and [new] is the last phone.  In every case
    but the last the world stays as it was. *)
Theorem X14_change_phone_cases (w : World) (name old new : str) :
  (forall args, length args <> 3%nat ->
     change_phone args w = (w, Ok (lit "Give me name and phone please.")))
  /\ (dict_get (data w) name = None ->
      change_phone [name; old; new] w = (w, Ok (lit "Invalid contact.")))
  /\ (forall r o,
        dict_get (data w) name = Some r -> heap w !! r = Some o ->
        change_phone [name; old; new] w =
        if (1 <=? count_phone old (Record_.phones o))%nat
           && ten_digits_opt_newline new
        then (set_heap
                (<[r := Record_.set_phones
                          (remove_first old (Record_.phones o ++ [Field.init new])) o]>
                   (heap w)) w,
              Ok (lit "Phone number for " ++ name ++ lit " changed from " ++ old
                  ++ lit " to " ++ new))
        else (w, Ok (lit "Give me name and phone please."))).
Proof.
  split; [|split].
  - intros args Hl. unfold change_phone, input_error, change_phone_func.
    destruct args as [|a [|b [|c [|d args]]]]; try reflexivity.
    now contradiction Hl.
  - intros Hk. unfold change_phone, input_error, change_phone_func,
      AddressBook.find, bind, get, ret. now rewrite Hk.
  - intros r o Hk Ho. unfold change_phone, input_error, change_phone_func.
    unfold bind at 1. unfold AddressBook.find, bind at 1, get, ret. rewrite Hk.
    pose proof (edit_phone_eq old new o) as He.
    rewrite (Phone_init_shape new) in He.
    destruct (1 <=? count_phone old (Record_.phones o))%nat; cbn [andb].
    + destruct (ten_digits_opt_newline new).
      * unfold bind. now rewrite (on_changed _ _ _ _ _ _ Ho He).
      * unfold bind. now rewrite (on_unchanged _ _ _ _ _ Ho He).
    + unfold bind. now rewrite (on_unchanged _ _ _ _ _ Ho He).
Qed.

Lemma X14_change_phone_cases_witness :
  change_phone [lit "Alice"; lit "1234567890"; lit "0987654321"] alice_book
  = (set_heap
       [Record_.set_phones [Field.init (lit "0987654321")]
          {| Record_.name := Field.init (lit "Alice");
             Record_.phones := [Field.init (lit "1234567890")];
             Record_.birthday := Some (Field.init (lit "15.06.1990")) |}]
       alice_book,
     Ok (lit "Phone number for Alice changed from 1234567890 to 0987654321")).
Proof.
  apply (proj2 (proj2 (X14_change_phone_cases alice_book (lit "Alice")
                         (lit "1234567890") (lit "0987654321"))) 0%nat
           {| Record_.name := Field.init (lit "Alice");
              Record_.phones := [Field.init (lit "1234567890")];
              Record_.birthday := Some (Field.init (lit "15.06.1990")) |});
    vm_compute; reflexivity.
Defined.

(** The commands that only read. *)
Lemma show_phone_world args w : fst (show_phone_func args w) = w.
Proof.
  unfold show_phone_func. destruct args as [|name args]; [reflexivity|].
  unfold AddressBook.find, bind, get, ret, deref, raise.
  destruct (dict_get (data w) name) as [r|]; [|reflexivity].
  now destruct (heap w !! r).
Qed.

Lemma show_birthday_world args w : fst (show_birthday_func args w) = w.
Proof.
  unfold show_birthday_func. destruct args as [|name args]; [reflexivity|].
  unfold AddressBook.find, bind, get, ret, deref, raise.
  destruct (dict_get (data w) name) as [r|]; [|reflexivity].
  destruct (heap w !! r) as [o|]; [|reflexivity].
  now destruct (Record_.birthday o).
Qed.

Lemma deref_all_eq refs w :
  deref_all refs w =
  (w, match mapM (fun r => heap w !! r) refs with
      | Some os => Ok os
      | None => Raise dangling
      end).
Proof.
  induction refs as [|r refs IH]; [reflexivity|].
  cbn [deref_all mapM]. unfold bind at 1, deref.
  destruct (heap w !! r) as [o|]; [|reflexivity].
  unfold bind at 1. rewrite IH. cbn.
  now destruct (mapM (fun r => heap w !! r) refs).
Qed.

Lemma all_contacts_world args w : fst (all_contacts_func args w) = w.
Proof.
  unfold all_contacts_func, bind, get. destruct (data w) as [|kr d] eqn:E; [reflexivity|].
  rewrite deref_all_eq. now destruct (mapM _ _).
Qed.

Lemma birthdays_world args w : fst (birthdays_func args w) = w.
Proof.
  unfold birthdays_func, bind. rewrite get_upcoming_birthdays_eq.
  now destruct (upcoming_from _ _ _ _) as [[|? ?]|].
Qed.

(** X15.  The commands [phone], [show-birthday], [all] and [birthdays]
    only read: whatever their arguments and whatever the state of the
    book, they answer with a text and leave the world as it was. *)
Theorem X15_queries_change_nothing (w : World) (args : list str) :
  (exists s, show_phone args w = (w, Ok s))
  /\ (exists s, show_birthday args w = (w, Ok s))
  /\ (exists s, all_contacts args w = (w, Ok s))
  /\ (exists s, birthdays args w = (w, Ok s)).
Proof.
  repeat split.
  - destruct (input_error_returns show_phone_func args w) as [s H].
    rewrite show_phone_world in H. eauto.
  - destruct (input_error_returns show_birthday_func args w) as [s H].
    rewrite show_birthday_world in H. eauto.
  - destruct (input_error_returns all_contacts_func args w) as [s H].
    rewrite all_contacts_world in H. eauto.
  - destruct (input_error_returns birthdays_func args w) as [s H].
    rewrite birthdays_world in H. eauto.
Qed.

Lemma show_commands_eq (w : World) (name : str) (rest : list str) :
  show_phone [] w = (w, Ok (lit "Enter the argument for the command"))
  /\ show_birthday [] w = (w, Ok (lit "Enter the argument for the command"))
  /\ show_phone (name :: rest) w =
     (w, Ok match lookup w name with
            | Some o => name ++ lit "'s phones: "
                        ++ join (lit ", ") (map Field.value (Record_.phones o))
            | None => lit "Invalid contact."
            end)
  /\ show_birthday (name :: rest) w =
     (w, Ok match lookup w name with
            | Some o =>
                match Record_.birthday o with
                | Some b => name ++ lit "'s birthday is on " ++ Field.value b
                | None => lit "Invalid contact."
                end
            | None => lit "Invalid contact."
            end).
Proof.
  split; [reflexivity|]. split; [reflexivity|].
  unfold show_phone, show_birthday, input_error, show_phone_func,
    show_birthday_func, lookup, AddressBook.find, bind, get, ret, deref, raise.
  destruct (dict_get (data w) name) as [r|]; [|split; reflexivity].
  destruct (heap w !! r) as [o|]; [|split; reflexivity].
  split; [reflexivity|]. now destruct (Record_.birthday o).
Qed.

(** X16.  The answers of [phone] and [show-birthday]: without argument
    "Enter the argument for the command"; for a name that is not in the
    book "Invalid contact."; [show-birthday] also answers "Invalid
    contact." for a contact without birthday.  Otherwise the phones of the
    contact, joined by ", ", or its birthday as it was entered.  Further
    arguments are ignored. *)
Theorem X16_show_commands_answers (w : World) (name : str) (rest : list str) :
  show_phone [] w = (w, Ok (lit "Enter the argument for the command"))
  /\ show_birthday [] w = (w, Ok (lit "Enter the argument for the command"))
  /\ show_phone (name :: rest) w =
     (w, Ok match lookup w name with
            | Some o => name ++ lit "'s phones: "
                        ++ join (lit ", ") (map Field.value (Record_.phones o))
            | None => lit "Invalid contact."
            end)
  /\ show_birthday (name :: rest) w =
     (w, Ok match lookup w name with
            | Some o =>
                match Record_.birthday o with
                | Some b => name ++ lit "'s birthday is on " ++ Field.value b
                | None => lit "Invalid contact."
                end
            | None => lit "Invalid contact."
            end).
Proof. apply show_commands_eq. Qed.

Lemma Birthday_init_cases v :
  Birthday.init v =
  match datetime.strptime_dmY v with
  | Ok _ => Ok (Field.init v)
  | Raise _ => Raise (ValueError (lit "birthday format must be DD.MM.YYYY"))
  end.
Proof.
  unfold Birthday.init.
  destruct (datetime.strptime_dmY v) as [d | e] eqn:E; [reflexivity|].
  unfold datetime.strptime_dmY in E.
  destruct (datetime.match_dmY v) as [[[[? ?] ?] [|? ?]]|];
    try (injection E as <-; reflexivity).
  apply date_new_raises in E as [msg ->]. reflexivity.
Qed.

Lemma add_birthday_eq v o :
  Record_.add_birthday v o =
  match datetime.strptime_dmY v with
  | Ok _ => (Record_.set_birthday (Some (Field.init v)) o, Ok tt)
  | Raise _ => (o, Raise (ValueError (lit "birthday format must be DD.MM.YYYY")))
  end.
Proof.
  unfold Record_.add_birthday, bind, lift. rewrite Birthday_init_cases.
  now destruct (datetime.strptime_dmY v).
Qed.

Lemma add_birthday_known w name birthday r o :
  dict_get (data w) name = Some r -> heap w !! r = Some o ->
  add_birthday [name; birthday] w =
  match datetime.strptime_dmY birthday with
  | Ok _ =>
      (set_heap
         (<[r := Record_.set_birthday (Some (Field.init birthday)) o]> (heap w)) w,
       Ok (lit "Birthday " ++ birthday ++ lit " added for " ++ name))
  | Raise _ => (w, Ok (lit "Give me name and phone please."))
  end.
Proof.
  intros Hk Ho. unfold add_birthday, input_error, add_birthday_func.
  unfold bind at 1. unfold AddressBook.find, bind at 1, get, ret. rewrite Hk.
  pose proof (add_birthday_eq birthday o) as He.
  destruct (datetime.strptime_dmY birthday).
  - unfold bind. now rewrite (on_changed _ _ _ _ _ _ Ho He).
  - unfold bind. now rewrite (on_unchanged _ _ _ _ _ Ho He).
Qed.

(** X17.  [add-birthday]: with other than two arguments it answers "Give
    me name and phone please."; for a name that is not in the book
    "Contact doesn't exist."; for a contact and a text that [strptime]
    does not read, again "Give me name and phone please."; in these cases
    nothing changes.  Otherwise the text becomes the birthday of the
    contact, replacing the one it had. *)
Theorem X17_add_birthday_cases (w : World) (name birthday : str) :
  (forall args, length args <> 2%nat ->
     add_birthday args w = (w, Ok (lit "Give me name and phone please.")))
  /\ (dict_get (data w) name = None ->
      add_birthday [name; birthday] w = (w, Ok (lit "Contact doesn't exist.")))
  /\ (forall r o,
        dict_get (data w) name = Some r -> heap w !! r = Some o ->
        add_birthday [name; birthday] w =
        match datetime.strptime_dmY birthday with
        | Ok _ =>
            (set_heap
               (<[r := Record_.set_birthday (Some (Field.init birthday)) o]> (heap w)) w,
             Ok (lit "Birthday " ++ birthday ++ lit " added for " ++ name))
        | Raise _ => (w, Ok (lit "Give me name and phone please."))
        end).
Proof.
  split; [|split].
  - intros args Hl. unfold add_birthday, input_error, add_birthday_func.
    destruct args as [|a [|b [|c args]]]; try reflexivity.
    now contradiction Hl.
  - intros Hk. unfold add_birthday, input_error, add_birthday_func,
      AddressBook.find, bind, get, ret. now rewrite Hk.
  - intros r o. apply add_birthday_known.
Qed.

Lemma X17_add_birthday_cases_witness :
  add_birthday [lit "Alice"; lit "31.02.1990"] alice_book
  = (alice_book, Ok (lit "Give me name and phone please.")).
Proof.
  apply (proj2 (proj2 (X17_add_birthday_cases alice_book (lit "Alice")
                         (lit "31.02.1990"))) 0%nat
           {| Record_.name := Field.init (lit "Alice");
              Record_.phones := [Field.init (lit "1234567890")];
              Record_.birthday := Some (Field.init (lit "15.06.1990")) |});
    vm_compute; reflexivity.
Defined.

(** X18.  What [add-birthday] stores, [show-birthday] shows: after the
    command has been given a contact of the book and a date that
    [strptime] reads, [show-birthday] answers with the text as it was
    entered, and the query of the upcoming birthdays will read the same
    date from it. *)
Theorem X18_add_birthday_then_show (w : World) (name birthday : str)
  (o : Record_.t) (d : datetime.date) :
  lookup w name = Some o ->
  datetime.strptime_dmY birthday = Ok d ->
  exists w',
    add_birthday [name; birthday] w
    = (w', Ok (lit "Birthday " ++ birthday ++ lit " added for " ++ name))
    /\ lookup w' name = Some (Record_.set_birthday (Some (Field.init birthday)) o)
    /\ show_birthday [name] w'
       = (w', Ok (name ++ lit "'s birthday is on " ++ birthday))
    /\ forall today days,
         AddressBook.upcoming_of today days
           (Record_.set_birthday (Some (Field.init birthday)) o)
         = (c <-r AddressBook.birthday_this_year d today;;
            Ok (if in_window c today days
                then [ {| entry_name := Field.value (Record_.name o);
                          entry_birthday := datetime.strftime_Ymd (weekend_shift c) |} ]
                else []))%py.
Proof.
  intros Hl Hd. unfold lookup in Hl.
  destruct (dict_get (data w) name) as [r|] eqn:Hk; [|discriminate].
  pose proof (add_birthday_known w name birthday r o Hk Hl) as He.
  rewrite Hd in He. eexists. split; [exact He|].
  assert (Hl' : lookup (set_heap (<[r := Record_.set_birthday (Some (Field.init birthday)) o]>
                                    (heap w)) w) name
                = Some (Record_.set_birthday (Some (Field.init birthday)) o))
    by now apply (lookup_updated w name r o).
  split; [exact Hl'|]. split.
  - destruct (show_commands_eq
                (set_heap (<[r := Record_.set_birthday (Some (Field.init birthday)) o]>
                             (heap w)) w) name []) as (_ & _ & _ & Hs).
    rewrite Hs, Hl'. reflexivity.
  - intros today days. unfold AddressBook.upcoming_of.
    cbn [Record_.birthday Record_.set_birthday Field.value Field.init Record_.name].
    rewrite Hd. cbn [rbind].
    destruct (AddressBook.birthday_this_year d today) as [c|e] eqn:Hc; [|reflexivity].
    cbn [rbind]. fold (in_window c today days).
    destruct (in_window c today days); [|reflexivity].
    now rewrite (adjust_for_weekend_ok c (birthday_this_year_valid _ _ _ Hc)).
Qed.

Lemma X18_add_birthday_then_show_witness :
  exists w',
    add_birthday [lit "Alice"; lit "1.1.2000"] alice_book
    = (w', Ok (lit "Birthday " ++ lit "1.1.2000" ++ lit " added for " ++ lit "Alice"))
    /\ lookup w' (lit "Alice")
       = Some (Record_.set_birthday (Some (Field.init (lit "1.1.2000")))
                 {| Record_.name := Field.init (lit "Alice");
                    Record_.phones := [Field.init (lit "1234567890")];
                    Record_.birthday := Some (Field.init (lit "15.06.1990")) |})
    /\ show_birthday [lit "Alice"] w'
       = (w', Ok (lit "Alice" ++ lit "'s birthday is on " ++ lit "1.1.2000"))
    /\ forall today days,
         AddressBook.upcoming_of today days
           (Record_.set_birthday (Some (Field.init (lit "1.1.2000")))
              {| Record_.name := Field.init (lit "Alice");
                 Record_.phones := [Field.init (lit "1234567890")];
                 Record_.birthday := Some (Field.init (lit "15.06.1990")) |})
         = (c <-r AddressBook.birthday_this_year (mkdate 2000 1 1) today;;
            Ok (if in_window c today days
                then [ {| entry_name := lit "Alice";
                          entry_birthday := datetime.strftime_Ymd (weekend_shift c) |} ]
                else []))%py.
Proof.
  apply (X18_add_birthday_then_show alice_book (lit "Alice") (lit "1.1.2000")
           {| Record_.name := Field.init (lit "Alice");
              Record_.phones := [Field.init (lit "1234567890")];
              Record_.birthday := Some (Field.init (lit "15.06.1990")) |}
           (mkdate 2000 1 1)); vm_compute; reflexivity.
Defined.

Lemma accepted_phone phone :
  ten_digits_opt_newline phone = true -> Phone.init phone = Ok (Field.init phone).
Proof. intros H. now rewrite Phone_init_shape, H. Qed.

(** X19.  What [add] stores, [phone] shows: after [add name phone] with a
    phone that [Phone] accepts, [phone name] lists the phones the contact
    had before (none for a new contact) followed by the new one. *)
Theorem X19_add_contact_then_show_phone (w : World) (name phone : str)
  (rest : list str) :
  names_match_keys w -> name <> [] -> ten_digits_opt_newline phone = true ->
  let w' := fst (add_contact (name :: phone :: rest) w) in
  show_phone [name] w' =
  (w', Ok (name ++ lit "'s phones: "
           ++ join (lit ", ")
                (match lookup w name with
                 | Some o => map Field.value (Record_.phones o)
                 | None => []
                 end ++ [phone]))).
Proof.
  intros Hn Hne Hp. apply accepted_phone in Hp. cbv zeta.
  destruct (dict_get (data w) name) as [r|] eqn:Hk.
  - destruct (names_match_keys_valid _ _ _ Hn Hk) as (o & Ho & _).
    rewrite (add_contact_known_valid _ _ _ rest _ _ Hk Ho Hp). cbn [fst].
    rewrite (lookup_known _ _ _ Hk), Ho.
    destruct (show_commands_eq
                (set_heap (<[r := Record_.set_phones
                                    (Record_.phones o ++ [Field.init phone]) o]>
                             (heap w)) w) name []) as (_ & _ & Hs & _).
    rewrite Hs, (lookup_updated w name r o _ Hk Ho).
    cbn [Record_.phones Record_.set_phones]. now rewrite map_app.
  - rewrite (add_contact_new_valid _ _ _ rest Hk Hne Hp). cbn [fst].
    destruct (show_commands_eq (with_new_record w name [Field.init phone]) name [])
      as (_ & _ & Hs & _).
    rewrite Hs, (lookup_new_record _ _ _ Hk). unfold lookup. now rewrite Hk.
Qed.

Lemma X19_add_contact_then_show_phone_witness :
  let w' := fst (add_contact [lit "Alice"; lit "0987654321"] alice_book) in
  show_phone [lit "Alice"] w' =
  (w', Ok (lit "Alice's phones: 1234567890, 0987654321")).
Proof.
  apply (X19_add_contact_then_show_phone alice_book (lit "Alice") (lit "0987654321") []).
  - apply run_invariant, empty_book_invariant.
  - discriminate.
  - vm_compute. reflexivity.
Defined.

(** With the birthdays checked by [Birthday], the loop of the query can
    only fail with the [ValueError] of a date that does not exist. *)
Lemma upcoming_of_raises_value today days o e :
  birthday_ok o -> AddressBook.upcoming_of today days o = Raise e ->
  exists msg, e = ValueError msg.
Proof.
  intros Hok H. destruct (Record_.birthday o) as [b|] eqn:Hb.
  - destruct (Hok b Hb) as [bd Hp].
    destruct (AddressBook.birthday_this_year bd today) as [d|e'] eqn:Hd.
    + rewrite (upcoming_of_candidate _ _ _ _ _ _ Hb Hp Hd) in H. discriminate.
    + unfold AddressBook.upcoming_of in H. rewrite Hb, Hp in H. cbn [rbind] in H.
      rewrite Hd in H. cbn [rbind] in H. injection H as <-.
      now apply birthday_this_year_raises in Hd.
  - rewrite (upcoming_of_no_birthday _ _ _ Hb) in H. discriminate.
Qed.

Lemma upcoming_from_raises_value today days (h : list Record_.t) (d : dict ref) acc e :
  (forall k r, In (k, r) d -> exists o, h !! r = Some o /\ birthday_ok o) ->
  upcoming_from today days (map (fun kr : str * ref => h !! snd kr) d) acc = Raise e ->
  exists msg, e = ValueError msg.
Proof.
  revert acc. induction d as [|[k0 r0] d IH]; intros acc Hd; cbn; [discriminate|].
  destruct (Hd k0 r0 (or_introl eq_refl)) as (o & -> & Hok).
  destruct (AddressBook.upcoming_of today days o) as [items|e0] eqn:Hi.
  - apply IH. intros k r Hin. apply (Hd k r). now right.
  - intros [= <-]. now apply upcoming_of_raises_value in Hi.
Qed.

(** X20.  The answer of [birthdays] in a book whose birthdays all passed
    [Birthday]'s check: "No upcoming birthdays in the next week." when the
    query returns nothing, one line per reported contact otherwise, and
    "Give me name and phone please." whenever the query raises (a birthday
    on a 29th of February in a year without one, see X13). *)
Theorem X20_birthdays_answer (w : World) (args : list str) :
  names_match_keys w -> birthdays_valid w ->
  birthdays args w =
  (w, Ok match upcoming_from (clock w) 7 (map snd (directory w)) [] with
         | Ok [] => lit "No upcoming birthdays in the next week."
         | Ok (e :: l) => join [NL] (map birthday_line (e :: l))
         | Raise _ => lit "Give me name and phone please."
         end).
Proof.
  intros Hn Hbv. unfold birthdays, input_error, birthdays_func, bind.
  rewrite get_upcoming_birthdays_eq.
  destruct (upcoming_from _ _ _ _) as [[|e l]|e] eqn:E; try reflexivity.
  unfold directory in E. rewrite map_map in E. cbn [snd] in E.
  apply upcoming_from_raises_value in E as [msg ->]; [reflexivity|].
  intros k r Hin. destruct (Hn k r Hin) as (o & Ho & _).
  exists o. split; [exact Ho|].
  apply Hbv, list_elem_of_In. now apply list_elem_of_lookup_2 in Ho.
Qed.

Lemma X20_birthdays_answer_witness :
  birthdays [] dan_book = (dan_book, Ok (lit "Give me name and phone please."))
  /\ birthdays [] alice_book = (alice_book, Ok (lit "Alice has a birthday on 2024-06-17")).
Proof.
  split.
  - apply (X20_birthdays_answer dan_book []).
    + apply run_invariant, empty_book_invariant.
    + apply run_birthdays_valid. intros o [].
  - apply (X20_birthdays_answer alice_book []).
    + apply run_invariant, empty_book_invariant.
    + apply run_birthdays_valid. intros o [].
Defined.

Lemma records_of_book (h : list Record_.t) (d : dict ref) :
  (forall k r, In (k, r) d ->
     exists o, h !! r = Some o /\ Field.value (Record_.name o) = k) ->
  exists records,
    mapM (fun r => h !! r) (dict_values d) = Some records
    /\ Forall2 (fun kr o => h !! snd kr = Some o
                            /\ Field.value (Record_.name o) = fst kr) d records.
Proof.
  induction d as [|[k0 r0] d IH]; intros Hd.
  - exists []. split; [reflexivity | constructor].
  - destruct (Hd k0 r0 (or_introl eq_refl)) as (o & Ho & Hname).
    destruct IH as (records & Hm & Hf); [intros k r Hin; apply Hd; now right|].
    exists (o :: records). split.
    + unfold dict_values in *. cbn [map snd mapM]. rewrite Ho. cbn. now rewrite Hm.
    + constructor; [now split | exact Hf].
Qed.

(** X21.  [all] lists the contacts in the order of the book, one line each
    in the format of [Record.__str__], which shows the key as the name
    and the phones joined by "; "; for a book that is not empty this is
    [str(book)].  An empty book is answered with "No contacts
    available.". *)
Theorem X21_all_contacts_listing (w : World) (args : list str) :
  names_match_keys w ->
  exists records,
    Forall2 (fun kr o => heap w !! snd kr = Some o
                         /\ Record_str o
                            = lit "Contact name: " ++ fst kr ++ lit ", phones: "
                              ++ join (lit "; ") (map Field.value (Record_.phones o)))
            (data w) records
    /\ AddressBook_str w = (w, Ok (join [NL] (map Record_str records)))
    /\ all_contacts args w =
       (w, Ok match records with
              | [] => lit "No contacts available."
              | _ :: _ => join [NL] (map Record_str records)
              end).
Proof.
  intros Hn. destruct (records_of_book (heap w) (data w) Hn) as (records & Hm & Hf).
  exists records. split; [|split].
  - eapply Forall2_impl; [|exact Hf]. intros [k r] o [Ho Hname]. split; [exact Ho|].
    unfold Record_str. cbn [fst] in *. now rewrite Hname.
  - unfold AddressBook_str, bind, get. rewrite deref_all_eq, Hm. reflexivity.
  - unfold all_contacts, input_error, all_contacts_func, bind, get.
    destruct (data w) as [|kr d] eqn:E.
    + inversion Hf. reflexivity.
    + rewrite deref_all_eq, Hm. inversion Hf; subst. reflexivity.
Qed.

Lemma X21_all_contacts_listing_witness :
  exists records,
    Forall2 (fun kr o => heap alice_book !! snd kr = Some o
                         /\ Record_str o
                            = lit "Contact name: " ++ fst kr ++ lit ", phones: "
                              ++ join (lit "; ") (map Field.value (Record_.phones o)))
            (data alice_book) records
    /\ AddressBook_str alice_book = (alice_book, Ok (join [NL] (map Record_str records)))
    /\ all_contacts [] alice_book =
       (alice_book, Ok match records with
                       | [] => lit "No contacts available."
                       | _ :: _ => join [NL] (map Record_str records)
                       end).
Proof.
  apply (X21_all_contacts_listing alice_book []).
  apply run_invariant, empty_book_invariant.
Defined.
